(** * ConfigManager: typed records over INI sections

    A shallow embedding of [configmanager/meta.py] and the properties its
    specification states about it.

    The embedding follows the module top to bottom:
    - [Py]: the fragment of Python the module relies on (values, type
      annotations, [==], [in], [str()], calling a type on a string);
    - [ConfigParser]: the external INI parser, as a map from section names
      to string mappings;
    - [Meta]: [is_optional_type], [CheckNoneNonOptionalFieldsMixin],
      [ConfigSectionBase], [config_dataclass] and [ConfigBase].

    Python exceptions are values of [exn]; a call that may raise returns a
    [result].  The class attribute [section_name], which [config_dataclass]
    assigns on the class object itself, lives in a store shared by every
    field that refers to the class. *)

From Stdlib Require Import ZArith Ascii String.
From stdpp Require Import base gmap sets list strings pretty.

#[local] Set Warnings "-register-all,-clear-no-such-hyp".

Local Open Scope string_scope.

(** ** Exceptions and results *)

(** One constructor per failure the module can raise.  The comments give the
    Python exception class and where it is raised. *)
Inductive exn : Type :=
| UnknownFieldName (names : gset string)
    (* KeyError, convert_field_types_from_strings *)
| MissingRequiredField (field cls : string)
    (* TypeError, CheckNoneNonOptionalFieldsMixin.__post_init__ *)
| SectionNameMismatch (cls : string)
    (* ValueError, from_config_section *)
| SchemaFieldTypeError (names : gset string)
    (* TypeError, config_dataclass *)
| SchemaNameMismatch (names : gset string)
    (* ValueError, config_dataclass *)
| ConfigFileNotFound (path : string)
    (* FileNotFoundError, load *)
| NoConfigPathAvailable (cls : string)
    (* ValueError, save *)
| UnknownPathType
    (* ValueError, load *)
| UninitializedSectionName (cls : string)
    (* AssertionError, ConfigSectionBase.__post_init__ *)
| NotASection (field : string)
    (* AssertionError, the isinstance / issubclass assertions *)
| InitArgumentError (cls : string)
    (* TypeError of the generated __init__: missing or unexpected argument *)
| ConstructorError (what : string)
    (* ValueError / TypeError raised by a field type called on a string *)
| NotAClass
    (* TypeError, issubclass() on an annotation that is not a class *)
| NoAttribute (attr : string)
    (* AttributeError, reading an attribute the object does not have *)
| NoParser
    (* the instance was built without a parser: None is not a parser *)
| FileOpenError (path : string)
    (* OSError, open(path, 'w') *)
| FileWriteError (path : string).
    (* OSError, parser.write(fp) *)

Inductive result (A : Type) : Type :=
| Ok (a : A)
| Raise (e : exn).
Arguments Ok {A} a.
Arguments Raise {A} e.

#[global] Instance result_ret : MRet result := λ A a, Ok a.
#[global] Instance result_bind : MBind result := λ A B k r,
  match r with
  | Ok a => k a
  | Raise e => Raise e
  end.

(** The names an exception reports: what the message lists after the colon,
    or the single field a [MissingRequiredField] is about. *)
Definition reported (e : exn) : gset string :=
  match e with
  | UnknownFieldName ns | SchemaFieldTypeError ns | SchemaNameMismatch ns => ns
  | MissingRequiredField f _ => {[ f ]}
  | _ => ∅
  end.

(** ** The Python fragment *)
Module Py.

(** Values a section field can hold. *)
Inductive pyval : Type :=
| VNone
| VBool (b : bool)
| VInt (z : Z)
| VStr (s : string).

(** Type annotations.  [C] is the set of user classes an annotation may
    name: none for the fields of a section, the classes of the program for
    the fields of a config. [TUnion] is [typing.Union[...]], so
    [Optional[t]] is [TUnion [t; TNoneType]]. *)
Inductive pytype (C : Type) : Type :=
| TBool
| TInt
| TStr
| TNoneType
| TUnion (args : list (pytype C))
| TClass (c : C).
Arguments TBool {C}.
Arguments TInt {C}.
Arguments TStr {C}.
Arguments TNoneType {C}.
Arguments TUnion {C} args.
Arguments TClass {C} c.

Definition Optional {C} (t : pytype C) : pytype C := TUnion [t; TNoneType].

(** [x is None] *)
Definition is_None (v : pyval) : bool :=
  match v with VNone => true | _ => false end.

(** [type(x)], for the values of this fragment. *)
Definition type_of (v : pyval) : pytype Empty_set :=
  match v with
  | VNone => TNoneType
  | VBool _ => TBool
  | VInt _ => TInt
  | VStr _ => TStr
  end.

(** [x == y].  [bool] is a subclass of [int]: [True == 1]. *)
Definition py_eq (x y : pyval) : bool :=
  match x, y with
  | VNone, VNone => true
  | VBool a, VBool b => Bool.eqb a b
  | VBool a, VInt z | VInt z, VBool a => (z =? (if a then 1 else 0))%Z
  | VInt a, VInt b => (a =? b)%Z
  | VStr a, VStr b => bool_decide (a = b)
  | _, _ => false
  end.

(** [x in (e1, ..., en)]: identity or equality with some element. *)
Definition py_in (x : pyval) (tuple : list pyval) : bool :=
  existsb (py_eq x) tuple.

(** [str(x)] *)
Definition str (v : pyval) : string :=
  match v with
  | VNone => "None"
  | VBool true => "True"
  | VBool false => "False"
  | VInt z => pretty z
  | VStr s => s
  end.

(** [bool(x)] *)
Definition truth (v : pyval) : bool :=
  match v with
  | VNone => false
  | VBool b => b
  | VInt z => negb (z =? 0)%Z
  | VStr s => negb (bool_decide (s = ""))
  end.

(** *** [int(s)] on a string

    ASCII only: surrounding whitespace is dropped, one sign is allowed, and
    single underscores may separate digits.  The ASCII whitespace of Python
    is tab to carriage return, the four separators 28 to 31, and space. *)
Definition is_space (c : ascii) : bool :=
  let n := nat_of_ascii c in
  ((9 <=? n) && (n <=? 13) || (28 <=? n) && (n <=? 32))%nat.

Definition is_digit (c : ascii) : bool :=
  let n := nat_of_ascii c in ((48 <=? n) && (n <=? 57))%nat.

Definition digit_val (c : ascii) : Z := Z.of_nat (nat_of_ascii c) - 48.

Fixpoint lstrip (s : string) : string :=
  match s with
  | String c r => if is_space c then lstrip r else s
  | EmptyString => EmptyString
  end.

Fixpoint rstrip (s : string) : string :=
  match s with
  | EmptyString => EmptyString
  | String c r =>
      match rstrip r with
      | EmptyString => if is_space c then EmptyString else String c EmptyString
      | r' => String c r'
      end
  end.

Definition strip (s : string) : string := rstrip (lstrip s).

(** [prev] records whether the previous character was a digit, which is
    where an underscore, or the end of the literal, is allowed. *)
Fixpoint int_digits (s : string) (prev : bool) (acc : Z) : option Z :=
  match s with
  | EmptyString => if prev then Some acc else None
  | String c r =>
      if is_digit c then int_digits r true (acc * 10 + digit_val c)
      else if bool_decide (c = "_"%char)
           then (if prev then int_digits r false acc else None)
           else None
  end.

Definition int_of_str (s : string) : option Z :=
  match strip s with
  | String "-" r => Z.opp <$> int_digits r false 0
  | String "+" r => int_digits r false 0
  | t => int_digits t false 0
  end.

(** *** Calling a type on one argument: [tp(x)]

    [typing.Union] cannot be instantiated and [NoneType] takes no argument:
    both raise.  Section fields name no user class. *)
Definition call_type (tp : pytype Empty_set) (x : pyval) : result pyval :=
  match tp with
  | TBool => Ok (VBool (truth x))
  | TInt =>
      match x with
      | VStr s =>
          match int_of_str s with
          | Some z => Ok (VInt z)
          | None => Raise (ConstructorError "invalid literal for int()")
          end
      | VInt z => Ok (VInt z)
      | VBool b => Ok (VInt (if b then 1 else 0))
      | VNone => Raise (ConstructorError "int() argument must be a string or a number")
      end
  | TStr => Ok (VStr (str x))
  | TNoneType => Raise (ConstructorError "NoneType takes no arguments")
  | TUnion _ => Raise (ConstructorError "Cannot instantiate typing.Union")
  | TClass c => match c with end
  end.

End Py.
Import Py.

(** ** The auto-name sentinel

    [section_name] holds either a string or the sentinel object
    [AUTO_NAME]; [__init_subclass__] rules out [None]. *)
Inductive section_name_t : Type :=
| AUTO_NAME
| Named (s : string).

#[global] Instance section_name_eq_dec : EqDecision section_name_t.
Proof. solve_decision. Defined.

(** ** The external parser *)
Module ConfigParser.

(** Modelled from the spec: the INI parser ([configparser]) is an external
    collaborator, consumed only as a map from section names to mappings of
    string keys to string values.  A [SectionProxy] is one such mapping
    tagged with the name it was created with. *)
Record SectionProxy : Type := mkProxy {
  proxy_name : section_name_t;
  proxy_data : gmap string string
}.

(** [section[key] = value] *)
Definition proxy_setitem (key value : string) (s : SectionProxy) : SectionProxy :=
  mkProxy (proxy_name s) (<[key := value]> (proxy_data s)).

(** Modelled from the spec: reading a file merges it into the parser state,
    section by section and key by key, the file's keys overriding. *)
Definition read (file parser : gmap string (gmap string string))
  : gmap string (gmap string string) :=
  union_with (λ new old, Some (new ∪ old)) file parser.

(** [parser[name]] when [name in parser], nothing otherwise. *)
Definition getitem (name : string) (parser : gmap string (gmap string string))
  : option SectionProxy :=
  mkProxy (Named name) <$> parser !! name.

(** [parser[name] = section] *)
Definition setitem (name : string) (s : SectionProxy)
    (parser : gmap string (gmap string string)) : gmap string (gmap string string) :=
  <[name := proxy_data s]> parser.

End ConfigParser.
Import ConfigParser.

(** ** meta.py *)
Module Meta.

(** A dataclass field: [field.name], [field.type], and the declared default
    when there is one. *)
Record Field (C V : Type) : Type := mkField {
  field_name : string;
  field_type : pytype C;
  field_default : option V
}.
Arguments mkField {C V} _ _ _.
Arguments field_name {C V} _.
Arguments field_type {C V} _.
Arguments field_default {C V} _.

(** *** [is_optional_type] *)

Inductive origin_t : Type := OriginUnion | OriginNone.

Definition get_args {C} (tp : pytype C) : list (pytype C) :=
  match tp with TUnion args => args | _ => [] end.

Definition get_origin {C} (tp : pytype C) : origin_t :=
  match tp with TUnion _ => OriginUnion | _ => OriginNone end.

Definition is_NoneType {C} (tp : pytype C) : bool :=
  match tp with TNoneType => true | _ => false end.

Definition is_optional_type {C} (tp : pytype C) : bool :=
  match get_origin tp with
  | OriginUnion => existsb is_NoneType (get_args tp)
  | OriginNone => false
  end.

(** *** [CheckNoneNonOptionalFieldsMixin]

    The mixin is shared by sections and configs: it only needs the fields
    of the class and a test for [None] on the attribute values. *)
Section Mixin.
Context {C V : Type}.
Variable value_is_None : V → bool.

(** [getattr(self, name, None) is None] *)
Definition getattr_is_None (attrs : gmap string V) (name : string) : bool :=
  match attrs !! name with
  | Some v => value_is_None v
  | None => true
  end.

(** [__post_init__]: the loop raises at the first offending field. *)
Fixpoint CheckNone_post_init (cls_name : string) (attrs : gmap string V)
    (fields : list (Field C V)) : result unit :=
  match fields with
  | [] => Ok ()
  | field :: rest =>
      if getattr_is_None attrs (field_name field)
         && negb (is_optional_type (field_type field))
      then Raise (MissingRequiredField (field_name field) cls_name)
      else CheckNone_post_init cls_name attrs rest
  end.

(** The [__init__] that [@dataclass] generates: every field takes the
    keyword argument of its name, else its default; a field with neither,
    or a keyword that names no field, is a [TypeError]. *)
Fixpoint init_attrs (cls_name : string) (fields : list (Field C V))
    (kwargs : gmap string V) (attrs : gmap string V) : result (gmap string V) :=
  match fields with
  | [] => Ok attrs
  | field :: rest =>
      match kwargs !! field_name field, field_default field with
      | Some v, _ | None, Some v =>
          init_attrs cls_name rest kwargs (<[field_name field := v]> attrs)
      | None, None => Raise (InitArgumentError cls_name)
      end
  end.

Definition dataclass_init (cls_name : string) (fields : list (Field C V))
    (kwargs : gmap string V) : result (gmap string V) :=
  if decide (dom kwargs ⊆ list_to_set (field_name <$> fields))
  then init_attrs cls_name fields kwargs ∅
  else Raise (InitArgumentError cls_name).
End Mixin.

(** *** [ConfigSectionBase] *)

(** A section class: its [__name__], which identifies the class object, and
    its dataclass fields. *)
Record SectionClass : Type := mkSectionClass {
  sc_name : string;
  sc_fields : list (Field Empty_set pyval)
}.

(** The class attribute [section_name] of every section class, by class. *)
Definition ClassAttrs : Type := string → section_name_t.

Definition section_name (st : ClassAttrs) (cls : SectionClass) : section_name_t :=
  st (sc_name cls).

(** [cls.section_name = name] *)
Definition set_section_name (cls : SectionClass) (name : string)
    (st : ClassAttrs) : ClassAttrs :=
  λ c, if decide (c = sc_name cls) then Named name else st c.

Record SectionInstance : Type := mkSection {
  si_class : SectionClass;
  si_attrs : gmap string pyval
}.

Definition ConfigSectionBase_post_init (st : ClassAttrs) (cls : SectionClass)
    (attrs : gmap string pyval) : result unit :=
  match section_name st cls with
  | AUTO_NAME => Raise (UninitializedSectionName (sc_name cls))
  | Named _ => CheckNone_post_init is_None (sc_name cls) attrs (sc_fields cls)
  end.

(** Calling a section class with keyword arguments. *)
Definition new_section (st : ClassAttrs) (cls : SectionClass)
    (kwargs : gmap string pyval) : result SectionInstance :=
  attrs ← dataclass_init (sc_name cls) (sc_fields cls) kwargs;
  _ ← ConfigSectionBase_post_init st cls attrs;
  Ok (mkSection cls attrs).

(** The tuple of the boolean special case. *)
Definition truthy_tokens : list pyval :=
  [VStr "1"; VInt 1; VStr "true"; VStr "True"; VStr "TRUE"].

(** [field.type == bool] *)
Definition is_bool {C} (tp : pytype C) : bool :=
  match tp with TBool => true | _ => false end.

(** The body of the conversion loop for one field present in the source. *)
Definition convert_value (tp : pytype Empty_set) (raw : pyval) : result pyval :=
  if is_bool tp then Ok (VBool (py_in raw truthy_tokens))
  else call_type tp raw.

Fixpoint convert_loop (fields : list (Field Empty_set pyval))
    (source_data : gmap string pyval) (converted_fields : gmap string pyval)
  : result (gmap string pyval) :=
  match fields with
  | [] => Ok converted_fields
  | field :: rest =>
      match source_data !! field_name field with
      | Some raw =>
          value ← convert_value (field_type field) raw;
          convert_loop rest source_data (<[field_name field := value]> converted_fields)
      | None => convert_loop rest source_data converted_fields
      end
  end.

Definition cls_field_nameset (cls : SectionClass) : gset string :=
  list_to_set (field_name <$> sc_fields cls).

Definition convert_field_types_from_strings (cls : SectionClass)
    (source_data : gmap string pyval) : result (gmap string pyval) :=
  let unknown_source_nameset := dom source_data ∖ cls_field_nameset cls in
  if decide (unknown_source_nameset = ∅)
  then convert_loop (sc_fields cls) source_data ∅
  else Raise (UnknownFieldName unknown_source_nameset).

Definition from_config_section (st : ClassAttrs) (cls : SectionClass)
    (section : SectionProxy) : result SectionInstance :=
  if decide (section_name st cls = proxy_name section)
  then
    converted_fields ←
      convert_field_types_from_strings cls (VStr <$> proxy_data section);
    new_section st cls converted_fields
  else Raise (SectionNameMismatch (sc_name cls)).

(** [dataclasses.asdict(self)]: the fields in declaration order, with the
    values the instance holds. *)
Fixpoint asdict (attrs : gmap string pyval) (fields : list (Field Empty_set pyval))
  : result (list (string * pyval)) :=
  match fields with
  | [] => Ok []
  | field :: rest =>
      match attrs !! field_name field with
      | Some v => data ← asdict attrs rest; Ok ((field_name field, v) :: data)
      | None => Raise (NoAttribute (field_name field))
      end
  end.

Fixpoint write_items (data : list (string * pyval)) (section : SectionProxy)
  : SectionProxy :=
  match data with
  | [] => section
  | (name, value) :: rest => write_items rest (proxy_setitem name (str value) section)
  end.

Definition to_config_section (st : ClassAttrs) (self : SectionInstance)
  : result SectionProxy :=
  let section := mkProxy (section_name st (si_class self)) ∅ in
  data ← asdict (si_attrs self) (sc_fields (si_class self));
  Ok (write_items data section).

(** *** [config_dataclass] *)

(** The classes a config field can be annotated with: a subclass of
    [ConfigSectionBase], or some other class. *)
Inductive pyclass : Type :=
| SectionCls (c : SectionClass)
| OtherCls (name : string).

Record ConfigClass : Type := mkConfigClass {
  cc_name : string;
  cc_fields : list (Field pyclass (option SectionInstance))
}.

Definition get_section_fields (cls : ConfigClass)
  : list (Field pyclass (option SectionInstance)) := cc_fields cls.

(** [issubclass(tp, ConfigSectionBase)]; raises when [tp] is not a class. *)
Definition issubclass_ConfigSectionBase (tp : pytype pyclass) : result bool :=
  match tp with
  | TClass (SectionCls _) => Ok true
  | TClass (OtherCls _) | TBool | TInt | TStr | TNoneType => Ok false
  | TUnion _ => Raise NotAClass
  end.

Fixpoint wrong_type_fields (fields : list (Field pyclass (option SectionInstance)))
  : result (gset string) :=
  match fields with
  | [] => Ok ∅
  | field :: rest =>
      is_section ← issubclass_ConfigSectionBase (field_type field);
      wrong ← wrong_type_fields rest;
      Ok (if is_section : bool then wrong else {[ field_name field ]} ∪ wrong)
  end.

(** [field.type.section_name is not AUTO_NAME and
     field.type.section_name != field.name] *)
Definition name_mismatch (st : ClassAttrs)
    (field : Field pyclass (option SectionInstance)) : bool :=
  match field_type field with
  | TClass (SectionCls c) =>
      match section_name st c with
      | AUTO_NAME => false
      | Named n => negb (bool_decide (n = field_name field))
      end
  | _ => false
  end.

Definition mismatched_field_names (st : ClassAttrs)
    (fields : list (Field pyclass (option SectionInstance))) : gset string :=
  list_to_set (field_name <$> filter (λ field, name_mismatch st field = true) fields).

(** The final loop: every class still carrying the sentinel receives the
    name of the field at hand.  The assignment is on the class, so it is
    seen by the fields that follow. *)
Fixpoint stamp_auto_names (fields : list (Field pyclass (option SectionInstance)))
    (st : ClassAttrs) : ClassAttrs :=
  match fields with
  | [] => st
  | field :: rest =>
      match field_type field with
      | TClass (SectionCls c) =>
          match section_name st c with
          | AUTO_NAME => stamp_auto_names rest (set_section_name c (field_name field) st)
          | Named _ => stamp_auto_names rest st
          end
      | _ => stamp_auto_names rest st
      end
  end.

Definition config_dataclass (st : ClassAttrs) (cls : ConfigClass) : result ClassAttrs :=
  let fields_to_check := get_section_fields cls in
  wrong ← wrong_type_fields fields_to_check;
  if decide (wrong = ∅) then
    let mismatched := mismatched_field_names st fields_to_check in
    if decide (mismatched = ∅)
    then Ok (stamp_auto_names fields_to_check st)
    else Raise (SchemaNameMismatch mismatched)
  else Raise (SchemaFieldTypeError wrong).

(** *** [ConfigBase] *)

Record ConfigInstance : Type := mkConfig {
  ci_class : ConfigClass;
  ci_attrs : gmap string (option SectionInstance);
  _config_parser : option (gmap string (gmap string string));
  _config_path : option string
}.

(** [__post_init__(self, config_parser, config_path)] *)
Definition ConfigBase_post_init (cls : ConfigClass)
    (attrs : gmap string (option SectionInstance))
    (config_parser : option (gmap string (gmap string string)))
    (config_path : option string) : result ConfigInstance :=
  _ ← CheckNone_post_init (λ v, bool_decide (v = None)) (cc_name cls) attrs (cc_fields cls);
  Ok (mkConfig cls attrs config_parser None).

(** Calling a config class with the sections as keyword arguments and the
    two init-only arguments. *)
Definition new_config (cls : ConfigClass)
    (kwargs : gmap string (option SectionInstance))
    (config_parser : option (gmap string (gmap string string)))
    (config_path : option string) : result ConfigInstance :=
  attrs ← dataclass_init (cc_name cls) (cc_fields cls) kwargs;
  ConfigBase_post_init cls attrs config_parser config_path.

(** The file system, as far as [load] and [save] see it: the parsed content
    of the files that exist, and the paths that cannot be opened for
    writing or written to. *)
Record World : Type := mkWorld {
  files : gmap string (gmap string (gmap string string));
  unopenable : gset string;
  unwritable : gset string
}.

(** The [path] argument of [load]. *)
Inductive path_arg : Type :=
| PathAbsent                          (* None *)
| PathSingle (p : string)             (* str, bytes or PathLike *)
| PathSequence (ps : list string)     (* tuple or list *)
| PathOther.                          (* anything else *)

Fixpoint read_paths (w : World) (paths : list string)
    (parser : gmap string (gmap string string))
  : result (gmap string (gmap string string)) :=
  match paths with
  | [] => Ok parser
  | p :: rest =>
      match files w !! p with
      | Some file => read_paths w rest (read file parser)
      | None => Raise (ConfigFileNotFound p)
      end
  end.

Fixpoint load_sections (st : ClassAttrs)
    (fields : list (Field pyclass (option SectionInstance)))
    (parser : gmap string (gmap string string))
    (cls_sections : gmap string (option SectionInstance))
  : result (gmap string (option SectionInstance)) :=
  match fields with
  | [] => Ok cls_sections
  | field :: rest =>
      match field_type field with
      | TClass (SectionCls c) =>
          section ←
            match getitem (field_name field) parser with
            | Some proxy => from_config_section st c proxy
            | None => new_section st c ∅
            end;
          load_sections st rest parser (<[field_name field := Some section]> cls_sections)
      | TUnion _ => Raise NotAClass
      | _ => Raise (NotASection (field_name field))
      end
  end.

Definition load (st : ClassAttrs) (cls : ConfigClass) (path : path_arg) (w : World)
  : result ConfigInstance :=
  let parser : gmap string (gmap string string) := ∅ in
  '(paths, config_path) ←
    match path with
    | PathAbsent => Ok ([], None)
    | PathSequence ps => Ok (ps, None)
    | PathSingle p => Ok ([p], Some p)
    | PathOther => Raise UnknownPathType
    end;
  parser ← read_paths w paths parser;
  cls_sections ← load_sections st (get_section_fields cls) parser ∅;
  new_config cls cls_sections (Some parser) config_path.

(** [save] runs against the retained parser and the file system, and may
    stop with an exception at any step: a state-and-exception monad, with a
    log of what was done to the parser and the file system. *)
Inductive event : Type :=
| EvSetSection (name : string) (section : SectionProxy)
| EvOpen (path : string)
| EvWrite (path : string).

Record Heap : Type := mkHeap {
  heap_parser : option (gmap string (gmap string string));
  heap_world : World;
  heap_log : list event
}.

Definition M (A : Type) : Type := Heap → result A * Heap.

#[global] Instance M_ret : MRet M := λ A a h, (Ok a, h).
#[global] Instance M_bind : MBind M := λ A B k m h,
  match m h with
  | (Ok a, h') => k a h'
  | (Raise e, h') => (Raise e, h')
  end.

Definition lift {A} (r : result A) : M A := λ h, (r, h).

Definition tell (ev : event) (h : Heap) : Heap :=
  mkHeap (heap_parser h) (heap_world h) (heap_log h ++ [ev]).

(** [self._config_parser[name] = section] *)
Definition parser_setitem (name : string) (section : SectionProxy) : M unit := λ h,
  match heap_parser h with
  | Some parser =>
      (Ok (), tell (EvSetSection name section)
                (mkHeap (Some (setitem name section parser)) (heap_world h) (heap_log h)))
  | None => (Raise NoParser, h)
  end.

Definition set_file (path : string) (content : gmap string (gmap string string))
    (w : World) : World :=
  mkWorld (<[path := content]> (files w)) (unopenable w) (unwritable w).

(** [open(path, 'w')]: truncates the file when it succeeds. *)
Definition open_w (path : string) : M unit := λ h,
  let h := tell (EvOpen path) h in
  if decide (path ∈ unopenable (heap_world h))
  then (Raise (FileOpenError path), h)
  else (Ok (), mkHeap (heap_parser h) (set_file path ∅ (heap_world h)) (heap_log h)).

(** [self._config_parser.write(fp)] *)
Definition parser_write (path : string) : M unit := λ h,
  let h := tell (EvWrite path) h in
  match heap_parser h with
  | Some parser =>
      if decide (path ∈ unwritable (heap_world h))
      then (Raise (FileWriteError path), h)
      else (Ok (), mkHeap (heap_parser h) (set_file path parser (heap_world h)) (heap_log h))
  | None => (Raise NoParser, h)
  end.

Fixpoint save_sections (st : ClassAttrs) (attrs : gmap string (option SectionInstance))
    (fields : list (Field pyclass (option SectionInstance))) : M unit :=
  match fields with
  | [] => mret ()
  | field :: rest =>
      match attrs !! field_name field with
      | Some (Some section) =>
          proxy ← lift (to_config_section st section);
          _ ← parser_setitem (field_name field) proxy;
          save_sections st attrs rest
      | Some None => lift (Raise (NotASection (field_name field)))
      | None => lift (Raise (NoAttribute (field_name field)))
      end
  end.

Definition save_body (st : ClassAttrs) (self : ConfigInstance) (path : option string)
  : M unit :=
  path ← lift
    match path with
    | Some p => Ok p
    | None =>
        match _config_path self with
        | Some p => Ok p
        | None => Raise (NoConfigPathAvailable (cc_name (ci_class self)))
        end
    end;
  _ ← save_sections st (ci_attrs self) (get_section_fields (ci_class self));
  _ ← open_w path;
  parser_write path.

(** [self.save(path)]: the outcome, the instance with its parser as [save]
    left it, the file system, and the log. *)
Definition save (st : ClassAttrs) (self : ConfigInstance) (path : option string)
    (w : World) : result unit * ConfigInstance * World * list event :=
  let '(r, h) := save_body st self path (mkHeap (_config_parser self) w []) in
  (r,
   mkConfig (ci_class self) (ci_attrs self) (heap_parser h) (_config_path self),
   heap_world h, heap_log h).

End Meta.
Import Meta.

(** * Vocabulary of the properties *)

Definition no_space (s : string) : Prop :=
  Forall (λ c, is_space c = false) (list_ascii_of_string s).

(** The truthy tokens as the specification words them: the string ["1"],
    the value [1], or the string ["true"] in any letter casing. *)
Definition to_lower (c : ascii) : ascii :=
  let n := nat_of_ascii c in
  if ((65 <=? n) && (n <=? 90))%nat then ascii_of_nat (n + 32) else c.

Fixpoint lower (s : string) : string :=
  match s with
  | EmptyString => EmptyString
  | String c r => String (to_lower c) (lower r)
  end.

Definition truthy_as_specified (raw : pyval) : bool :=
  match raw with
  | VStr s => bool_decide (s = "1") || bool_decide (lower s = "true")
  | VInt z => (z =? 1)%Z
  | _ => false
  end.

(** A type supports construction from a string when calling it on some
    string returns. *)
Definition constructible_from_str (tp : pytype Empty_set) : Prop :=
  ∃ s v, call_type tp (VStr s) = Ok v.

(** A field is absent and required: what the mixin rejects. *)
Definition absent_required {C V} (value_is_None : V → bool)
    (attrs : gmap string V) (field : Field C V) : Prop :=
  getattr_is_None value_is_None attrs (field_name field) = true
  ∧ is_optional_type (field_type field) = false.

(** A config field whose section class declares a fixed name other than the
    field's own. *)
Definition declares_other_name (st : ClassAttrs)
    (f : Field pyclass (option SectionInstance)) : Prop :=
  ∃ c fixed, field_type f = TClass (SectionCls c)
             ∧ section_name st c = Named fixed ∧ fixed ≠ field_name f.

(** The field is annotated with the class object [c]. *)
Definition uses_class (c : SectionClass)
    (f : Field pyclass (option SectionInstance)) : bool :=
  match field_type f with
  | TClass (SectionCls c') => bool_decide (sc_name c' = sc_name c)
  | _ => false
  end.

(** What [save] is expected to write for one section field: under the
    field's name, the raw section of the instance the field holds. *)
Definition section_write (st : ClassAttrs)
    (attrs : gmap string (option SectionInstance))
    (f : Field pyclass (option SectionInstance))
    (w : string * SectionProxy) : Prop :=
  w.1 = field_name f
  ∧ ∃ section, attrs !! field_name f = Some (Some section)
               ∧ to_config_section st section = Ok w.2.

(** The parser state after a sequence of section writes. *)
Definition apply_writes (writes : list (string * SectionProxy))
    (parser : gmap string (gmap string string)) : gmap string (gmap string string) :=
  foldl (λ p w, setitem w.1 w.2 p) parser writes.

Definition log_of_writes (writes : list (string * SectionProxy)) : list event :=
  (λ w, EvSetSection w.1 w.2) <$> writes.

(** The annotation is a subclass of [ConfigSectionBase]. *)
Definition is_section_annotation (tp : pytype pyclass) : bool :=
  match tp with
  | TClass (SectionCls _) => true
  | _ => false
  end.

(** * A running example

    The schema of the specification's scenario: a section [Server] with a
    string, an integer and an optional boolean, every field declared with
    the default [None] as the mixin allows, in a config with one field
    [server]. *)
Module Example.

Definition Server : SectionClass :=
  mkSectionClass "Server"
    [mkField "host" TStr (Some VNone);
     mkField "port" TInt (Some VNone);
     mkField "debug" (Optional TBool) (Some VNone)].

Definition AppConfig : ConfigClass :=
  mkConfigClass "AppConfig" [mkField "server" (TClass (SectionCls Server)) (Some None)].

(** Every section class starts as a [ConfigSectionAutoNamed]. *)
Definition declared : ClassAttrs := λ _, AUTO_NAME.

(** The class attributes once [AppConfig] has been prepared. *)
Definition prepared : ClassAttrs := set_section_name Server "server" declared.

Definition server_ini : gmap string (gmap string string) :=
  {[ "server" := {[ "host" := "localhost"; "port" := "8080" ]} ]}.

Definition disk : World := mkWorld {[ "app.ini" := server_ini ]} {[ "/ro/app.ini" ]} ∅.

Definition localhost : SectionInstance :=
  mkSection Server
    {[ "host" := VStr "localhost"; "port" := VInt 8080; "debug" := VNone ]}.

Definition loaded : ConfigInstance :=
  mkConfig AppConfig {[ "server" := Some localhost ]} (Some server_ini) None.

(** An auto-named section class used for two fields of one config. *)
Definition Endpoint : SectionClass :=
  mkSectionClass "Endpoint" [mkField "url" TStr (Some VNone)].

Definition TwoEndpoints : ConfigClass :=
  mkConfigClass "TwoEndpoints"
    [mkField "primary" (TClass (SectionCls Endpoint)) (Some None);
     mkField "backup" (TClass (SectionCls Endpoint)) (Some None)].

End Example.

(** * Properties *)

(** ** [int(str(n))] is [n] *)
Section IntStr.

Local Open Scope Z_scope.

Lemma pretty_N_char_digit (d : N) :
  (d < 10)%N →
  is_digit (pretty_N_char d) = true ∧ digit_val (pretty_N_char d) = Z.of_N d
  ∧ is_space (pretty_N_char d) = false.
Proof.
  intros Hd.
  assert (d = 0 ∨ d = 1 ∨ d = 2 ∨ d = 3 ∨ d = 4 ∨ d = 5 ∨ d = 6 ∨ d = 7
          ∨ d = 8 ∨ d = 9)%N as Hcases by lia.
  repeat destruct Hcases as [-> | Hcases]; try subst d; by vm_compute.
Qed.

(** Reading the digits that [pretty_N_go] puts in front of [s] shifts the
    accumulator by that many decimal places and adds the number. *)
Lemma int_digits_pretty_N_go (x : N) :
  ∃ k, 0 ≤ k ∧ ∀ s prev acc,
    int_digits (pretty_N_go x s) prev acc
    = int_digits s (if decide (0 < x)%N then true else prev)
        (acc * 10 ^ k + Z.of_N x).
Proof.
  induction (N.lt_wf_0 x) as [x _ IH].
  destruct (decide (0 < x)%N) as [Hpos | Hzero].
  - destruct (IH (x / 10)%N) as (k & Hk & Hgo); [by apply N.div_lt |].
    exists (k + 1). split; [lia |]. intros s prev acc.
    rewrite pretty_N_go_step by done. rewrite Hgo. cbn [int_digits].
    destruct (pretty_N_char_digit (x mod 10)%N) as (-> & -> & _).
    { by apply N.mod_lt. }
    f_equal. rewrite Z.pow_add_r by lia.
    rewrite (N.div_mod x 10) at 3 by done.
    rewrite N2Z.inj_add, N2Z.inj_mul. lia.
  - assert (x = 0%N) as -> by lia. exists 0. split; [done |].
    intros s prev acc. rewrite pretty_N_go_0. f_equal. simpl. lia.
Qed.

Lemma pretty_N_go_no_space (x : N) (s : string) :
  no_space s → no_space (pretty_N_go x s).
Proof.
  revert s. induction (N.lt_wf_0 x) as [x _ IH]. intros s Hs.
  destruct (decide (0 < x)%N) as [Hpos | Hzero].
  - rewrite pretty_N_go_step by done. apply IH; [by apply N.div_lt |].
    constructor; [| done].
    by destruct (pretty_N_char_digit (x mod 10)%N) as (_ & _ & ?);
      [apply N.mod_lt |].
  - assert (x = 0%N) as -> by lia. by rewrite pretty_N_go_0.
Qed.

Lemma strip_no_space (s : string) : no_space s → strip s = s.
Proof.
  intros Hs. unfold strip.
  assert (lstrip s = s) as ->.
  { destruct s as [| c r]; [done |]. inversion Hs as [| ? ? Hc _]; subst.
    simpl. by rewrite Hc. }
  induction s as [| c r IH]; [done |].
  inversion Hs as [| ? ? Hc Hr]; subst. simpl. rewrite (IH Hr).
  destruct r; [by rewrite Hc | done].
Qed.

(** A literal that starts with a digit carries no sign. *)
Lemma int_of_str_unsigned (t : string) (z : Z) :
  strip t = t → int_digits t false 0 = Some z → int_of_str t = Some z.
Proof.
  intros Hstrip Hdigits. unfold int_of_str. rewrite Hstrip.
  destruct t as [| c r]; [done |].
  destruct c as [[] [] [] [] [] [] [] []];
    first [ exact Hdigits | by vm_compute in Hdigits ].
Qed.

Lemma int_of_str_pretty_pos (p : positive) :
  no_space (pretty (Npos p)) ∧ int_digits (pretty (Npos p)) false 0 = Some (Zpos p).
Proof.
  unfold pretty, pretty_N. rewrite decide_False by done. split.
  - apply pretty_N_go_no_space. constructor.
  - destruct (int_digits_pretty_N_go (Npos p)) as (k & _ & ->).
    rewrite decide_True by done. done.
Qed.

Lemma int_of_str_pretty (z : Z) : int_of_str (pretty z) = Some z.
Proof.
  destruct z as [| p | p].
  - by vm_compute.
  - destruct (int_of_str_pretty_pos p) as [Hsp Hd].
    apply int_of_str_unsigned; [by apply strip_no_space | done].
  - destruct (int_of_str_pretty_pos p) as [Hsp Hd].
    change (pretty (Zneg p)) with (String "-" (pretty (Npos p))).
    unfold int_of_str. rewrite strip_no_space.
    + by rewrite Hd.
    + by constructor.
Qed.

End IntStr.

(** ** Field conversion *)
Section Conversion.

Implicit Types (cls : SectionClass) (tp : pytype Empty_set) (raw : pyval).
Implicit Types (source converted acc : gmap string pyval).

Lemma call_type_raises tp raw e :
  call_type tp raw = Raise e → ∃ what, e = ConstructorError what.
Proof.
  destruct tp as [| | | | args | []]; simpl; intros H; try (simplify_eq; eauto; fail).
  destruct raw; try destruct (int_of_str _); simplify_eq; eauto.
Qed.

Lemma convert_value_raises tp raw e :
  convert_value tp raw = Raise e → ∃ what, e = ConstructorError what.
Proof.
  unfold convert_value. destruct (is_bool tp); [done |]. apply call_type_raises.
Qed.

Lemma convert_loop_raises fields source acc e :
  convert_loop fields source acc = Raise e → ∃ what, e = ConstructorError what.
Proof.
  revert acc. induction fields as [| f rest IH]; intros acc; simpl; [done |].
  destruct (source !! field_name f) as [raw |]; [| by apply IH].
  destruct (convert_value (field_type f) raw) as [v | e'] eqn:Hv; simpl.
  - apply IH.
  - intros [= <-]. by eapply convert_value_raises.
Qed.

(** What the loop leaves in the result for each declared field. *)
Lemma convert_loop_lookup fields source acc converted :
  NoDup (field_name <$> fields) →
  convert_loop fields source acc = Ok converted →
  (∀ f raw, f ∈ fields → source !! field_name f = Some raw →
     ∃ v, convert_value (field_type f) raw = Ok v
          ∧ converted !! field_name f = Some v)
  ∧ (∀ n, n ∉ field_name <$> fields → converted !! n = acc !! n).
Proof.
  revert acc. induction fields as [| f rest IH]; intros acc Hnd Hloop.
  { simpl in Hloop. simplify_eq. split; [by intros ?? ?%elem_of_nil | done]. }
  rewrite fmap_cons in Hnd. apply NoDup_cons in Hnd as [Hfresh Hnd].
  simpl in Hloop.
  destruct (source !! field_name f) as [raw0 |] eqn:Hsrc.
  - destruct (convert_value (field_type f) raw0) as [v0 | e] eqn:Hv0; [| done].
    simpl in Hloop. destruct (IH _ Hnd Hloop) as [Hin Hout]. split.
    + intros g raw [-> | Hg]%elem_of_cons Hraw.
      * simplify_eq. exists v0. split; [done |].
        by rewrite (Hout _ Hfresh), lookup_insert_eq.
      * by apply Hin.
    + intros n [Hn Hrest]%not_elem_of_cons.
      rewrite (Hout _ Hrest). by rewrite lookup_insert_ne.
  - destruct (IH _ Hnd Hloop) as [Hin Hout]. split.
    + intros g raw [-> | Hg]%elem_of_cons Hraw; [congruence | by apply Hin].
    + intros n [Hn Hrest]%not_elem_of_cons. by apply Hout.
Qed.

Lemma truthy_tokens_spec raw :
  py_in raw truthy_tokens = true
  ↔ raw ∈ [VStr "1"; VInt 1; VBool true; VStr "true"; VStr "True"; VStr "TRUE"].
Proof.
  unfold py_in, truthy_tokens. simpl. rewrite !orb_true_iff.
  rewrite !elem_of_cons, elem_of_nil.
  destruct raw as [| [] | z | s]; simpl;
    rewrite ?bool_decide_eq_true, ?Z.eqb_eq; intuition congruence.
Qed.

End Conversion.

(** ** The boolean special case and the generic path *)

(** C2, as stated, does not hold: the claim is that a boolean field
    converts to true exactly on ["1"], [1] and every casing of ["true"].
    The code compares with three fixed spellings, so ["tRuE"] converts to
    false. *)
Lemma bool_conversion_not_case_insensitive :
  ¬ (∀ raw, convert_value TBool raw = Ok (VBool (truthy_as_specified raw))).
Proof. intros H. specialize (H (VStr "tRuE")). by vm_compute in H. Qed.

(** C2, amended: a boolean field converts to true exactly when the raw value
    equals one of the five tokens ['1'], [1], ['true'], ['True'], ['TRUE']
    (so also for [True], which equals [1]); a field of any other declared
    type is converted by calling the type on the raw value; and this is the
    value the conversion stores under the field's name. *)
Theorem bool_conversion_fixed_tokens :
  (∀ raw, convert_value TBool raw = Ok (VBool (py_in raw truthy_tokens))
          ∧ (py_in raw truthy_tokens = true
             ↔ raw ∈ [VStr "1"; VInt 1; VBool true;
                      VStr "true"; VStr "True"; VStr "TRUE"]))
  ∧ (∀ tp raw, tp ≠ TBool → convert_value tp raw = call_type tp raw)
  ∧ (∀ cls source converted field raw,
       NoDup (field_name <$> sc_fields cls) →
       field ∈ sc_fields cls →
       source !! field_name field = Some raw →
       convert_field_types_from_strings cls source = Ok converted →
       ∃ v, convert_value (field_type field) raw = Ok v
            ∧ converted !! field_name field = Some v).
Proof.
  split; [| split].
  - intros raw. split; [done | apply truthy_tokens_spec].
  - intros tp raw Htp. unfold convert_value. by destruct tp.
  - intros cls source converted field raw Hnd Hin Hraw Hconv.
    unfold convert_field_types_from_strings in Hconv.
    destruct (decide _); [| done].
    by eapply (convert_loop_lookup _ _ _ _ Hnd Hconv).
Qed.

Lemma bool_conversion_fixed_tokens_witness :
  convert_value TInt (VStr "8080") = call_type TInt (VStr "8080")
  ∧ ∃ v, convert_value TBool (VStr "TRUE") = Ok v
         ∧ ({[ "debug" := VBool true ]} : gmap string pyval) !! "debug" = Some v.
Proof.
  destruct bool_conversion_fixed_tokens as (_ & Hgen & Hloop). split.
  - by apply Hgen.
  - apply (Hloop (mkSectionClass "Flags" [mkField "debug" TBool None])
             {[ "debug" := VStr "TRUE" ]} {[ "debug" := VBool true ]}
             (mkField "debug" TBool None) (VStr "TRUE")).
    + simpl. apply NoDup_singleton.
    + simpl. apply list_elem_of_singleton. reflexivity.
    + reflexivity.
    + vm_compute. reflexivity.
Defined.

(** C9: converting a field declared exactly [bool] never raises, whatever
    the string; every string other than the four recognised spellings, such
    as ["yes"], ["on"] or ["tRuE"], gives false; a field declared
    [Optional[bool]] does not take the special case but the generic call of
    its type. *)
Theorem bool_conversion_total :
  (∀ s, ∃ b, convert_value TBool (VStr s) = Ok (VBool b)
             ∧ (b = true ↔ s ∈ ["1"; "true"; "True"; "TRUE"]))
  ∧ convert_value TBool (VStr "yes") = Ok (VBool false)
  ∧ convert_value TBool (VStr "on") = Ok (VBool false)
  ∧ convert_value TBool (VStr "tRuE") = Ok (VBool false)
  ∧ (∀ raw, convert_value (Optional TBool) raw = call_type (Optional TBool) raw).
Proof.
  split; [| by repeat split].
  intros s. exists (py_in (VStr s) truthy_tokens). split; [done |].
  rewrite truthy_tokens_spec, !elem_of_cons, !elem_of_nil.
  intuition congruence.
Qed.

(** ** Unknown keys *)

(** C3: a raw mapping with at least one key that is not a declared field
    name fails with [UnknownFieldName], and the failure carries exactly the
    keys of the mapping that are not field names, all of them; a mapping
    whose keys are all field names never fails that way. *)
Theorem unknown_field_names_batch cls (source : gmap string pyval) :
  let unknown := dom source ∖ cls_field_nameset cls in
  (∀ k, k ∈ unknown ↔ k ∈ dom source ∧ k ∉ field_name <$> sc_fields cls)
  ∧ ((∃ k, k ∈ dom source ∧ k ∉ field_name <$> sc_fields cls) →
       convert_field_types_from_strings cls source = Raise (UnknownFieldName unknown)
       ∧ reported (UnknownFieldName unknown) = unknown)
  ∧ ((∀ k, k ∈ dom source → k ∈ field_name <$> sc_fields cls) →
       ∀ names, convert_field_types_from_strings cls source
                ≠ Raise (UnknownFieldName names)).
Proof.
  intros unknown.
  assert (∀ k, k ∈ unknown ↔ k ∈ dom source ∧ k ∉ field_name <$> sc_fields cls)
    as Hunknown.
  { intros k. unfold unknown, cls_field_nameset.
    by rewrite elem_of_difference, elem_of_list_to_set. }
  split; [done |]. unfold convert_field_types_from_strings. fold unknown. split.
  - intros (k & Hk). rewrite decide_False; [done |].
    intros Hempty. apply Hunknown in Hk. rewrite Hempty in Hk. set_solver.
  - intros Hknown names. rewrite decide_True.
    + intros (what & ?)%convert_loop_raises. done.
    + apply set_eq. intros k. rewrite Hunknown. set_solver.
Qed.

Lemma unknown_field_names_batch_witness :
  convert_field_types_from_strings
    (mkSectionClass "Server" [mkField "host" TStr None; mkField "port" TInt None])
    {[ "host" := VStr "h"; "prot" := VStr "1"; "user" := VStr "u" ]}
  = Raise (UnknownFieldName {[ "prot"; "user" ]})
  ∧ ∀ names,
      convert_field_types_from_strings
        (mkSectionClass "Server" [mkField "host" TStr None; mkField "port" TInt None])
        {[ "host" := VStr "h" ]}
      ≠ Raise (UnknownFieldName names).
Proof.
  split.
  - destruct (unknown_field_names_batch
      (mkSectionClass "Server" [mkField "host" TStr None; mkField "port" TInt None])
      {[ "host" := VStr "h"; "prot" := VStr "1"; "user" := VStr "u" ]})
      as (_ & Hfail & _).
    assert (∃ k, k ∈ dom ({[ "host" := VStr "h"; "prot" := VStr "1";
                             "user" := VStr "u" ]} : gmap string pyval)
                 ∧ k ∉ ["host"; "port"]) as Hex.
    { exists "prot". split; [by vm_compute |].
      rewrite !elem_of_cons, elem_of_nil. intuition discriminate. }
    destruct (Hfail Hex) as [Heq _]. rewrite Heq. vm_compute. reflexivity.
  - apply (unknown_field_names_batch
      (mkSectionClass "Server" [mkField "host" TStr None; mkField "port" TInt None])
      {[ "host" := VStr "h" ]}).
    intros k. rewrite dom_singleton_L, elem_of_singleton. intros ->.
    simpl. apply list_elem_of_here.
Defined.

(** ** The required-field check *)
Section RequiredFields.

Context {C V : Type} (value_is_None : V → bool).
Implicit Types (attrs : gmap string V) (fields : list (Field C V)).

Lemma absent_required_test attrs (f : Field C V) :
  getattr_is_None value_is_None attrs (field_name f)
  && negb (is_optional_type (field_type f)) = true
  ↔ absent_required value_is_None attrs f.
Proof.
  unfold absent_required. rewrite andb_true_iff, negb_true_iff. done.
Qed.

(** The loop stops at the first absent required field, and passes when
    there is none. *)
Lemma CheckNone_post_init_spec cls_name attrs fields :
  match CheckNone_post_init value_is_None cls_name attrs fields with
  | Ok _ => ∀ f, f ∈ fields → ¬ absent_required value_is_None attrs f
  | Raise e =>
      ∃ i f, fields !! i = Some f
             ∧ absent_required value_is_None attrs f
             ∧ e = MissingRequiredField (field_name f) cls_name
             ∧ ∀ j g, j < i → fields !! j = Some g →
                      ¬ absent_required value_is_None attrs g
  end.
Proof.
  induction fields as [| f rest IH]; simpl.
  { by intros f ?%elem_of_nil. }
  destruct (getattr_is_None _ _ _ && negb _) eqn:Htest.
  - exists 0, f. apply absent_required_test in Htest.
    split; [done |]. split; [done |]. split; [done |]. intros; lia.
  - assert (¬ absent_required value_is_None attrs f) as Hf.
    { rewrite <- absent_required_test. by rewrite Htest. }
    destruct (CheckNone_post_init _ _ _ rest) as [[] | e].
    + intros g [-> | Hg]%elem_of_cons; [done | by apply IH].
    + destruct IH as (i & g & Hi & Hg & -> & Hbefore).
      exists (S i), g. split; [done |]. split; [done |]. split; [done |].
      intros [| j] h Hj Hh; simplify_eq/=; [done |].
      apply (Hbefore j); [lia | done].
Qed.

Lemma CheckNone_post_init_raises cls_name attrs fields :
  (∃ f, f ∈ fields ∧ absent_required value_is_None attrs f) →
  ∃ f, f ∈ fields ∧ absent_required value_is_None attrs f
       ∧ CheckNone_post_init value_is_None cls_name attrs fields
         = Raise (MissingRequiredField (field_name f) cls_name).
Proof.
  intros (f & Hf & Habs).
  pose proof (CheckNone_post_init_spec cls_name attrs fields) as Hspec.
  destruct (CheckNone_post_init _ _ _ _) as [[] | e].
  - by destruct (Hspec f Hf).
  - destruct Hspec as (i & g & Hi & Hg & -> & _).
    exists g. split; [by eapply list_elem_of_lookup_2 | done].
Qed.

Lemma CheckNone_post_init_passes cls_name attrs fields :
  (∀ f, f ∈ fields → is_optional_type (field_type f) = false →
        ∃ v, attrs !! field_name f = Some v ∧ value_is_None v = false) →
  CheckNone_post_init value_is_None cls_name attrs fields = Ok ().
Proof.
  intros Hset.
  pose proof (CheckNone_post_init_spec cls_name attrs fields) as Hspec.
  destruct (CheckNone_post_init _ _ _ _) as [[] | e]; [done |].
  destruct Hspec as (i & g & Hi & [Hnone Hreq] & _).
  destruct (Hset g) as (v & Hv & Hnn); [by eapply list_elem_of_lookup_2 | done |].
  unfold getattr_is_None in Hnone. rewrite Hv in Hnone. congruence.
Qed.

End RequiredFields.

(** C4: building a section, or a config, whose field of non-optional type
    holds [None] fails with [MissingRequiredField]; when every field of
    non-optional type holds a value that is not [None] the construction
    succeeds, whatever the optional fields hold; [0], the empty string and
    [False] are not [None]. *)
Theorem required_fields_enforced :
  (∀ st cls kwargs attrs,
     section_name st cls ≠ AUTO_NAME →
     dataclass_init (sc_name cls) (sc_fields cls) kwargs = Ok attrs →
     ((∃ f, f ∈ sc_fields cls ∧ absent_required is_None attrs f) →
        ∃ f, f ∈ sc_fields cls ∧ absent_required is_None attrs f
             ∧ new_section st cls kwargs
               = Raise (MissingRequiredField (field_name f) (sc_name cls)))
     ∧ ((∀ f, f ∈ sc_fields cls → is_optional_type (field_type f) = false →
              ∃ v, attrs !! field_name f = Some v ∧ is_None v = false) →
        new_section st cls kwargs = Ok (mkSection cls attrs)))
  ∧ (∀ cls kwargs attrs parser path,
     dataclass_init (cc_name cls) (cc_fields cls) kwargs = Ok attrs →
     ((∃ f, f ∈ cc_fields cls
            ∧ absent_required (λ v, bool_decide (v = None)) attrs f) →
        ∃ f, f ∈ cc_fields cls
             ∧ absent_required (λ v, bool_decide (v = None)) attrs f
             ∧ new_config cls kwargs parser path
               = Raise (MissingRequiredField (field_name f) (cc_name cls)))
     ∧ ((∀ f, f ∈ cc_fields cls → is_optional_type (field_type f) = false →
              ∃ section, attrs !! field_name f = Some (Some section)) →
        new_config cls kwargs parser path = Ok (mkConfig cls attrs parser None)))
  ∧ is_None (VInt 0) = false ∧ is_None (VStr "") = false
  ∧ is_None (VBool false) = false.
Proof.
  split; [| split; [| done]].
  - intros st cls kwargs attrs Hname Hinit. unfold new_section. rewrite Hinit.
    simpl. unfold ConfigSectionBase_post_init.
    destruct (section_name st cls) as [| n]; [done |]. split.
    + intros Habsent.
      destruct (CheckNone_post_init_raises is_None (sc_name cls) attrs _ Habsent)
        as (f & Hf & Hreq & ->).
      by exists f.
    + intros Hset. by rewrite CheckNone_post_init_passes.
  - intros cls kwargs attrs parser path Hinit. unfold new_config. rewrite Hinit.
    simpl. unfold ConfigBase_post_init. split.
    + intros Habsent.
      destruct (CheckNone_post_init_raises (λ v, bool_decide (v = None))
                  (cc_name cls) attrs _ Habsent) as (f & Hf & Hreq & ->).
      by exists f.
    + intros Hset. rewrite CheckNone_post_init_passes; [done |].
      intros f Hf Hopt. destruct (Hset f Hf Hopt) as (section & ->). eauto.
Qed.

Lemma required_fields_enforced_witness :
  (∃ f : Field Empty_set pyval, new_section Example.prepared Example.Server ∅
        = Raise (MissingRequiredField (field_name f) "Server"))
  ∧ new_section Example.prepared Example.Server
      {[ "host" := VStr ""; "port" := VInt 0 ]}
    = Ok (mkSection Example.Server
            {[ "host" := VStr ""; "port" := VInt 0; "debug" := VNone ]})
  ∧ (∃ f : Field pyclass (option SectionInstance),
        new_config Example.AppConfig ∅ None None
          = Raise (MissingRequiredField (field_name f) "AppConfig"))
  ∧ new_config Example.AppConfig {[ "server" := Some Example.localhost ]} None None
    = Ok (mkConfig Example.AppConfig {[ "server" := Some Example.localhost ]}
            None None).
Proof.
  destruct required_fields_enforced as (Hsection & Hconfig & _).
  split; [| split; [| split]].
  - destruct (Hsection Example.prepared Example.Server ∅
                {[ "host" := VNone; "port" := VNone; "debug" := VNone ]})
      as [Hfail _].
    + by vm_compute.
    + by vm_compute.
    + destruct Hfail as (f & _ & _ & Heq).
      * exists (mkField "port" TInt (Some VNone)). split; [| by vm_compute].
        simpl. rewrite !elem_of_cons. auto.
      * by exists f.
  - destruct (Hsection Example.prepared Example.Server
                {[ "host" := VStr ""; "port" := VInt 0 ]}
                {[ "host" := VStr ""; "port" := VInt 0; "debug" := VNone ]})
      as [_ Hpass].
    + by vm_compute.
    + by vm_compute.
    + apply Hpass. intros f. simpl. rewrite !elem_of_cons, elem_of_nil.
      intros [-> | [-> | [-> | []]]]; simpl; intros; simplify_eq; eauto.
  - destruct (Hconfig Example.AppConfig ∅ {[ "server" := None ]} None None)
      as [Hfail _].
    + by vm_compute.
    + destruct Hfail as (f & _ & _ & Heq); [| by exists f].
      exists (mkField "server" (TClass (SectionCls Example.Server)) (Some None)).
      split; [apply list_elem_of_here | by vm_compute].
  - destruct (Hconfig Example.AppConfig {[ "server" := Some Example.localhost ]}
                {[ "server" := Some Example.localhost ]} None None) as [_ Hpass].
    + by vm_compute.
    + apply Hpass. intros f. simpl. rewrite !elem_of_cons, elem_of_nil.
      intros [-> | []] _. simpl. eauto.
Defined.

(** C5, as stated, does not hold: with [host] and [port] both absent, the
    failure is about [host] alone and does not name [port]. *)
Lemma missing_required_fields_not_batched :
  ¬ (∀ st cls attrs e,
       ConfigSectionBase_post_init st cls attrs = Raise e →
       ∀ f, f ∈ sc_fields cls → absent_required is_None attrs f →
            field_name f ∈ reported e).
Proof.
  intros H.
  specialize (H Example.prepared Example.Server ∅
                (MissingRequiredField "host" "Server") eq_refl
                (mkField "port" TInt (Some VNone))).
  simpl in H. apply elem_of_singleton in H; [done | |].
  - rewrite !elem_of_cons. auto.
  - by vm_compute.
Qed.

(** C5, amended: when one or more required fields are absent, the failure
    names exactly one field, the first absent required field in declaration
    order. *)
Theorem missing_required_field_first_only {C V} (value_is_None : V → bool)
    (cls_name : string) (attrs : gmap string V) (fields : list (Field C V)) :
  (∃ f, f ∈ fields ∧ absent_required value_is_None attrs f) →
  ∃ i f, fields !! i = Some f
         ∧ absent_required value_is_None attrs f
         ∧ (∀ j g, j < i → fields !! j = Some g →
                   ¬ absent_required value_is_None attrs g)
         ∧ CheckNone_post_init value_is_None cls_name attrs fields
           = Raise (MissingRequiredField (field_name f) cls_name)
         ∧ reported (MissingRequiredField (field_name f) cls_name)
           = {[ field_name f ]}.
Proof.
  intros (f & Hf & Habs).
  pose proof (CheckNone_post_init_spec value_is_None cls_name attrs fields) as Hspec.
  destruct (CheckNone_post_init _ _ _ _) as [[] | e].
  - by destruct (Hspec f Hf).
  - destruct Hspec as (i & g & Hi & Hg & -> & Hfirst). by exists i, g.
Qed.

Lemma missing_required_field_first_only_witness :
  ∃ i f, sc_fields Example.Server !! i = Some f
         ∧ CheckNone_post_init is_None "Server" ∅ (sc_fields Example.Server)
           = Raise (MissingRequiredField (field_name f) "Server")
         ∧ reported (MissingRequiredField (field_name f) "Server")
           = {[ field_name f ]}.
Proof.
  destruct (missing_required_field_first_only is_None "Server" ∅
              (sc_fields Example.Server)) as (i & f & Hi & _ & _ & Hraise & Hrep).
  - exists (mkField "port" TInt (Some VNone)). split; [| by vm_compute].
    simpl. rewrite !elem_of_cons. auto.
  - by exists i, f.
Defined.

(** ** Schema preparation *)
Section Preparation.

Implicit Types (st : ClassAttrs) (cls : ConfigClass).
Implicit Types (f g : Field pyclass (option SectionInstance)).
Implicit Types (fields : list (Field pyclass (option SectionInstance))).

Lemma name_mismatch_spec st f :
  name_mismatch st f = true ↔ declares_other_name st f.
Proof.
  unfold name_mismatch, declares_other_name. split.
  - destruct (field_type f) as [| | | | | [c |]]; try done.
    destruct (section_name st c) as [| n] eqn:Hn; [done |].
    rewrite negb_true_iff, bool_decide_eq_false. eauto.
  - intros (c & fixed & -> & -> & Hne).
    by rewrite negb_true_iff, bool_decide_eq_false.
Qed.

Lemma mismatched_field_names_spec st fields n :
  n ∈ mismatched_field_names st fields
  ↔ ∃ f, f ∈ fields ∧ field_name f = n ∧ declares_other_name st f.
Proof.
  unfold mismatched_field_names.
  rewrite elem_of_list_to_set, list_elem_of_fmap.
  setoid_rewrite list_elem_of_filter. setoid_rewrite name_mismatch_spec.
  naive_solver.
Qed.

Lemma wrong_type_fields_spec fields wrong :
  wrong_type_fields fields = Ok wrong →
  ∀ f, f ∈ fields →
       (∃ c, field_type f = TClass (SectionCls c)) ∨ field_name f ∈ wrong.
Proof.
  revert wrong. induction fields as [| g rest IH]; intros wrong Hw f Hf.
  { by apply elem_of_nil in Hf. }
  simpl in Hw.
  destruct (issubclass_ConfigSectionBase (field_type g)) as [b |] eqn:Hsub;
    [| done].
  destruct (wrong_type_fields rest) as [wrong' |]; [| done].
  simpl in Hw. simplify_eq.
  apply elem_of_cons in Hf as [-> | Hf].
  - destruct b.
    + left. destruct (field_type g) as [| | | | | [c |]]; simplify_eq/=; eauto.
    + right. set_solver.
  - destruct (IH _ eq_refl f Hf) as [? | ?]; [by left | right].
    destruct b; set_solver.
Qed.

Lemma wrong_type_fields_sections fields :
  (∀ f, f ∈ fields → ∃ c, field_type f = TClass (SectionCls c)) →
  wrong_type_fields fields = Ok ∅.
Proof.
  induction fields as [| g rest IH]; intros Hall; [done |].
  simpl. destruct (Hall g) as (c & ->); [apply list_elem_of_here |].
  simpl. rewrite IH; [done |].
  intros f Hf. apply Hall. by apply list_elem_of_further.
Qed.

(** What a successful preparation went through. *)
Lemma config_dataclass_ok st cls st' :
  config_dataclass st cls = Ok st' →
  (∀ f, f ∈ cc_fields cls → ∃ c, field_type f = TClass (SectionCls c))
  ∧ (∀ f, f ∈ cc_fields cls → ¬ declares_other_name st f)
  ∧ st' = stamp_auto_names (cc_fields cls) st.
Proof.
  unfold config_dataclass, get_section_fields.
  destruct (wrong_type_fields (cc_fields cls)) as [wrong |] eqn:Hwrong; [| done].
  simpl. destruct (decide (wrong = ∅)) as [-> |]; [| done].
  destruct (decide (mismatched_field_names st (cc_fields cls) = ∅))
    as [Hnone |]; [| done].
  intros [= <-]. split; [| split; [| done]].
  - intros f Hf.
    destruct (wrong_type_fields_spec _ _ Hwrong f Hf) as [? | ?]; [done |].
    set_solver.
  - intros f Hf Hdecl.
    assert (field_name f ∈ mismatched_field_names st (cc_fields cls)) as Hin.
    { apply mismatched_field_names_spec. eauto. }
    rewrite Hnone in Hin. set_solver.
Qed.

(** The stamping loop never touches a class that already has a name. *)
Lemma stamp_auto_names_named fields st cname n :
  st cname = Named n → stamp_auto_names fields st cname = Named n.
Proof.
  revert st. induction fields as [| g rest IH]; intros st Hn; [done |].
  simpl. destruct (field_type g) as [| | | | | [c |]]; try by apply IH.
  destruct (section_name st c) eqn:Hc; [| by apply IH].
  apply IH. unfold set_section_name. case_decide; [| done].
  subst. unfold section_name in Hc. congruence.
Qed.

(** A class that carries the sentinel receives the name of the first field
    annotated with it. *)
Lemma stamp_auto_names_auto fields st c :
  section_name st c = AUTO_NAME →
  stamp_auto_names fields st (sc_name c)
  = match list_find (λ g, uses_class c g = true) fields with
    | Some (_, g) => Named (field_name g)
    | None => AUTO_NAME
    end.
Proof.
  revert st. induction fields as [| g rest IH]; intros st Hauto; [done |].
  cbn [stamp_auto_names list_find].
  destruct (decide (uses_class c g = true)) as [Huses | Huses].
  - unfold uses_class in Huses.
    destruct (field_type g) as [| | | | | [c' |]]; try done.
    apply bool_decide_eq_true in Huses.
    unfold section_name in *. rewrite Huses, Hauto.
    apply stamp_auto_names_named. unfold set_section_name.
    by rewrite Huses, decide_True.
  - assert (∀ st0, section_name st0 c = AUTO_NAME →
              stamp_auto_names rest st0 (sc_name c)
              = match prod_map S id <$> list_find (λ g0, uses_class c g0 = true) rest
                with
                | Some (_, g0) => Named (field_name g0)
                | None => AUTO_NAME
                end) as IH'.
    { intros st0 H0. rewrite (IH st0 H0).
      by destruct (list_find _ rest) as [[] |]. }
    unfold uses_class in Huses.
    destruct (field_type g) as [| | | | | [c' |]]; try by apply IH'.
    rewrite bool_decide_eq_true in Huses.
    destruct (section_name st c') eqn:Hc'; [| by apply IH'].
    apply IH'. unfold section_name, set_section_name. by rewrite decide_False.
Qed.

End Preparation.

(** C6: a config schema with a section field whose section class declares
    a fixed name other than the field's name is never prepared, so no
    instance of it can be built; when every field is annotated with a
    section class, as a config schema requires, the failure is
    [SchemaNameMismatch] and it lists every such field. *)
Theorem schema_name_mismatch_batch (st : ClassAttrs) (cls : ConfigClass) :
  (∃ f, f ∈ cc_fields cls ∧ declares_other_name st f) →
  (∃ e, config_dataclass st cls = Raise e)
  ∧ ((∀ f, f ∈ cc_fields cls → ∃ c, field_type f = TClass (SectionCls c)) →
     ∃ offenders,
       config_dataclass st cls = Raise (SchemaNameMismatch offenders)
       ∧ ∀ n, n ∈ reported (SchemaNameMismatch offenders)
              ↔ ∃ f, f ∈ cc_fields cls ∧ field_name f = n
                     ∧ declares_other_name st f).
Proof.
  intros (f & Hf & Hdecl).
  assert (mismatched_field_names st (cc_fields cls) ≠ ∅) as Hsome.
  { intros Hnone.
    assert (field_name f ∈ mismatched_field_names st (cc_fields cls)) as Hin.
    { apply mismatched_field_names_spec. eauto. }
    rewrite Hnone in Hin. set_solver. }
  split.
  - destruct (config_dataclass st cls) as [st' |] eqn:Hprep; [| eauto].
    apply config_dataclass_ok in Hprep as (_ & Hnone & _).
    by destruct (Hnone f Hf).
  - intros Hsections. exists (mismatched_field_names st (cc_fields cls)). split.
    + unfold config_dataclass, get_section_fields.
      rewrite wrong_type_fields_sections by done. simpl.
      rewrite decide_True by done. by rewrite decide_False.
    + intros n. apply mismatched_field_names_spec.
Qed.

Lemma schema_name_mismatch_batch_witness :
  config_dataclass Example.prepared
    (mkConfigClass "Renamed"
       [mkField "srv" (TClass (SectionCls Example.Server)) (Some None);
        mkField "server" (TClass (SectionCls Example.Server)) (Some None);
        mkField "web" (TClass (SectionCls Example.Server)) (Some None)])
  = Raise (SchemaNameMismatch {[ "srv"; "web" ]}).
Proof.
  destruct (schema_name_mismatch_batch Example.prepared
    (mkConfigClass "Renamed"
       [mkField "srv" (TClass (SectionCls Example.Server)) (Some None);
        mkField "server" (TClass (SectionCls Example.Server)) (Some None);
        mkField "web" (TClass (SectionCls Example.Server)) (Some None)]))
    as [_ Hbatch].
  - exists (mkField "srv" (TClass (SectionCls Example.Server)) (Some None)).
    split; [apply list_elem_of_here |].
    exists Example.Server, "server". by vm_compute.
  - destruct Hbatch as (offenders & Hraise & _).
    + intros f. simpl. rewrite !elem_of_cons, elem_of_nil.
      intros [-> | [-> | [-> | []]]]; by exists Example.Server.
    + vm_compute. reflexivity.
Defined.




(** ** From an instance to a raw section and back *)

(** Looking up [n] in a map built by inserting the field [f] and then
    filling in the fields [rest]: [n] is one of [rest], or [f], or
    neither. *)
Ltac lookup_after_insert n f rest :=
  destruct (decide (n ∈ field_name <$> rest));
  [ rewrite decide_True; [done | by apply list_elem_of_further]
  | destruct (decide (n = field_name f)) as [-> |];
    [ rewrite decide_True by apply list_elem_of_here;
      by rewrite lookup_insert_eq
    | rewrite decide_False by (by intros [? | ?]%elem_of_cons);
      by rewrite lookup_insert_ne ] ].

Section RoundTrip.

Implicit Types (fields : list (Field Empty_set pyval)).
Implicit Types (attrs kwargs source acc : gmap string pyval).

Lemma constructible_from_str_cases tp :
  constructible_from_str tp → tp = TBool ∨ tp = TInt ∨ tp = TStr.
Proof.
  intros (s & v & Hcall). destruct tp as [| | | | args | []]; auto; done.
Qed.

(** Calling the type of a value on the string of the value gives the value
    back, for the types that can be called on a string. *)
Lemma convert_value_str v :
  constructible_from_str (type_of v) →
  convert_value (type_of v) (VStr (str v)) = Ok v.
Proof.
  intros [Hb | [Hi | Hs]]%constructible_from_str_cases;
    destruct v as [| [] | z | s]; simplify_eq/=; try done.
  unfold convert_value. simpl. by rewrite int_of_str_pretty.
Qed.

Lemma asdict_ok attrs fields :
  (∀ f, f ∈ fields → is_Some (attrs !! field_name f)) →
  ∃ data, asdict attrs fields = Ok data
          ∧ data.*1 = field_name <$> fields
          ∧ ∀ n v, (n, v) ∈ data → attrs !! n = Some v.
Proof.
  induction fields as [| f rest IH]; intros Hall.
  { exists []. split; [done |]. split; [done |]. by intros n v ?%elem_of_nil. }
  destruct (Hall f) as [v Hv]; [apply list_elem_of_here |].
  destruct IH as (data & Hdata & Hnames & Hvals).
  { intros g Hg. apply Hall. by apply list_elem_of_further. }
  exists ((field_name f, v) :: data). simpl. rewrite Hv, Hdata. simpl.
  split; [done |]. split; [by f_equal |].
  intros n w [[= -> ->] | Hin]%elem_of_cons; [done | by apply Hvals].
Qed.

Lemma write_items_name data section :
  proxy_name (write_items data section) = proxy_name section.
Proof.
  revert section. induction data as [| [n v] rest IH]; intros section; [done |].
  simpl. by rewrite IH.
Qed.

Lemma write_items_lookup attrs data section n :
  (∀ m v, (m, v) ∈ data → attrs !! m = Some v) →
  proxy_data (write_items data section) !! n
  = if decide (n ∈ data.*1) then str <$> attrs !! n
    else proxy_data section !! n.
Proof.
  revert section. induction data as [| [m v] rest IH]; intros section Hvals.
  { rewrite decide_False; [done | by intros ?%elem_of_nil]. }
  cbn [write_items].
  rewrite IH by (intros ???; apply Hvals; by apply list_elem_of_further).
  rewrite fmap_cons. cbn [fst].
  destruct (decide (n ∈ rest.*1)) as [Hin | Hout].
  - rewrite decide_True; [done | by apply list_elem_of_further].
  - destruct (decide (n = m)) as [-> | Hne].
    + rewrite decide_True by apply list_elem_of_here.
      unfold proxy_setitem. cbn [proxy_data]. rewrite lookup_insert_eq.
      by rewrite (Hvals m v) by apply list_elem_of_here.
    + rewrite decide_False by (by intros [? | ?]%elem_of_cons).
      unfold proxy_setitem. cbn [proxy_data]. by rewrite lookup_insert_ne.
Qed.

Lemma convert_loop_ok attrs fields source acc :
  (∀ f, f ∈ fields →
        ∃ raw, source !! field_name f = Some raw
               ∧ (convert_value (field_type f) raw ≫= λ v, Ok (Some v))
                 = Ok (attrs !! field_name f)) →
  ∃ converted, convert_loop fields source acc = Ok converted
    ∧ ∀ n, converted !! n
           = if decide (n ∈ field_name <$> fields) then attrs !! n else acc !! n.
Proof.
  revert acc. induction fields as [| f rest IH]; intros acc Hall.
  { exists acc. split; [done |]. intros n.
    rewrite decide_False; [done | by intros ?%elem_of_nil]. }
  destruct (Hall f) as (raw & Hraw & Hconv); [apply list_elem_of_here |].
  destruct (convert_value (field_type f) raw) as [v |] eqn:Hv; [| done].
  simpl in Hconv. injection Hconv as Hattr.
  destruct (IH (<[field_name f := v]> acc)) as (converted & Hloop & Hlook).
  { intros g Hg. apply Hall. by apply list_elem_of_further. }
  exists converted. cbn [convert_loop]. rewrite Hraw, Hv. split; [done |].
  intros n. rewrite Hlook, fmap_cons.
  lookup_after_insert n f rest.
Qed.

Lemma init_attrs_ok cls_name fields kwargs acc :
  (∀ f, f ∈ fields → is_Some (kwargs !! field_name f)) →
  ∃ attrs', init_attrs cls_name fields kwargs acc = Ok attrs'
    ∧ ∀ n, attrs' !! n
           = if decide (n ∈ field_name <$> fields) then kwargs !! n else acc !! n.
Proof.
  revert acc. induction fields as [| f rest IH]; intros acc Hall.
  { exists acc. split; [done |]. intros n.
    rewrite decide_False; [done | by intros ?%elem_of_nil]. }
  destruct (Hall f) as (v & Hv); [apply list_elem_of_here |].
  destruct (IH (<[field_name f := v]> acc)) as (attrs' & Hinit & Hlook).
  { intros g Hg. apply Hall. by apply list_elem_of_further. }
  exists attrs'. cbn [init_attrs]. rewrite Hv. split; [done |].
  intros n. rewrite Hlook, fmap_cons.
  lookup_after_insert n f rest.
Qed.

End RoundTrip.



(** ** Loading and saving *)
Section LoadSave.

Implicit Types (st : ClassAttrs) (cls : ConfigClass) (self : ConfigInstance).

Lemma result_bind_Ok {A B} (r : result A) (k : A → result B) (b : B) :
  r ≫= k = Ok b → ∃ a, r = Ok a ∧ k a = Ok b.
Proof. destruct r as [a |]; [eauto | done]. Qed.

(** [__post_init__] receives the path and stores [None]. *)
Lemma new_config_path cls kwargs parser config_path self :
  new_config cls kwargs parser config_path = Ok self →
  ci_class self = cls ∧ _config_parser self = parser ∧ _config_path self = None.
Proof.
  unfold new_config. intros (attrs & _ & Hpost)%result_bind_Ok.
  unfold ConfigBase_post_init in Hpost.
  apply result_bind_Ok in Hpost as (? & _ & [= <-]). done.
Qed.

Lemma load_path st cls path w self :
  load st cls path w = Ok self →
  ci_class self = cls ∧ _config_path self = None.
Proof.
  unfold load. intros ([paths config_path] & _ & Hrest)%result_bind_Ok.
  apply result_bind_Ok in Hrest as (parser & _ & Hrest).
  apply result_bind_Ok in Hrest as (sections & _ & Hnew).
  apply new_config_path in Hnew. tauto.
Qed.

Lemma save_without_path st self w :
  _config_path self = None →
  save st self None w
  = (Raise (NoConfigPathAvailable (cc_name (ci_class self))), self, w, []).
Proof. destruct self as [cls attrs parser path]. simpl. by intros ->. Qed.

(** C1, on the code: an instance loaded from one explicit path holds no
    path, and saving it without a path argument fails with
    [NoConfigPathAvailable], leaving the instance and the files as they
    were.  The claim asks for the path to be retained and used. *)
Theorem load_does_not_retain_path st cls (p : string) (w : World) self :
  load st cls (PathSingle p) w = Ok self →
  _config_path self = None
  ∧ ∀ w', save st self None w'
          = (Raise (NoConfigPathAvailable (cc_name cls)), self, w', []).
Proof.
  intros [<- Hpath]%load_path. split; [done |].
  intros w'. by apply save_without_path.
Qed.

Lemma load_does_not_retain_path_witness :
  load Example.prepared Example.AppConfig (PathSingle "app.ini") Example.disk
  = Ok Example.loaded
  ∧ _config_path Example.loaded = None
  ∧ save Example.prepared Example.loaded None Example.disk
    = (Raise (NoConfigPathAvailable "AppConfig"), Example.loaded, Example.disk, []).
Proof.
  assert (load Example.prepared Example.AppConfig (PathSingle "app.ini")
            Example.disk = Ok Example.loaded) as Hload
    by (vm_compute; reflexivity).
  destruct (load_does_not_retain_path _ _ _ _ _ Hload) as [Hpath Hsave].
  split; [exact Hload |]. split; [exact Hpath |]. apply Hsave.
Defined.

Lemma asdict_raises attrs fields e :
  asdict attrs fields = Raise e → ∃ n, e = NoAttribute n.
Proof.
  induction fields as [| f rest IH]; simpl; [done |].
  destruct (attrs !! field_name f); [| intros [= <-]; eauto].
  destruct (asdict attrs rest); [done |]. simpl. intros [= <-]. by apply IH.
Qed.

Lemma to_config_section_raises st section e :
  to_config_section st section = Raise e → ∃ n, e = NoAttribute n.
Proof.
  unfold to_config_section.
  destruct (asdict _ _) eqn:Hdict; [done |]. simpl. intros [= <-].
  by eapply asdict_raises.
Qed.

(** The loop of [save] only writes sections into the parser; when it
    completes it has written one per field, in order. *)
Lemma save_sections_spec st attrs fields h :
  ∃ writes,
    heap_log (save_sections st attrs fields h).2
    = (heap_log h ++ log_of_writes writes)%list
    ∧ heap_world (save_sections st attrs fields h).2 = heap_world h
    ∧ match (save_sections st attrs fields h).1 with
      | Ok _ =>
          Forall2 (section_write st attrs) fields writes
          ∧ heap_parser (save_sections st attrs fields h).2
            = apply_writes writes <$> heap_parser h
          ∧ (fields ≠ [] → is_Some (heap_parser h))
      | Raise e => ∀ p, e ≠ FileOpenError p ∧ e ≠ FileWriteError p
      end.
Proof.
  revert h. induction fields as [| f rest IH]; intros h.
  { exists []. simpl. rewrite app_nil_r. split; [done |]. split; [done |].
    split; [constructor |]. split; [by destruct (heap_parser h) | done]. }
  cbn [save_sections].
  destruct (attrs !! field_name f) as [[section |] |] eqn:Hattr;
    try (exists []; simpl; rewrite app_nil_r; done).
  unfold mbind, M_bind, lift.
  destruct (to_config_section st section) as [proxy | e] eqn:Hproxy.
  2:{ exists []. simpl. rewrite app_nil_r. split; [done |]. split; [done |].
      intros p. apply to_config_section_raises in Hproxy as [n ->]. done. }
  unfold parser_setitem.
  destruct (heap_parser h) as [parser |] eqn:Hparser.
  2:{ exists []. simpl. rewrite app_nil_r. done. }
  set (h1 := tell _ _).
  destruct (IH h1) as (writes & Hlog & Hworld & Hres).
  exists ((field_name f, proxy) :: writes).
  split; [| split].
  - rewrite Hlog. unfold h1. simpl. by rewrite <- app_assoc.
  - by rewrite Hworld.
  - destruct (save_sections st attrs rest h1).1 as [[] | e]; [| done].
    destruct Hres as (Hwrites & Hfinal & _).
    split; [| split; [| eauto]].
    + constructor; [| done]. split; [done |]. eauto.
    + by rewrite Hfinal.
Qed.

Lemma apply_writes_cons m s writes parser :
  apply_writes ((m, s) :: writes) parser = apply_writes writes (setitem m s parser).
Proof. done. Qed.

Lemma apply_writes_other writes parser n :
  n ∉ writes.*1 → apply_writes writes parser !! n = parser !! n.
Proof.
  revert parser. induction writes as [| [m s] rest IH]; intros parser Hn; [done |].
  apply not_elem_of_cons in Hn as [Hne Hrest].
  rewrite apply_writes_cons, IH by done.
  unfold setitem. by rewrite lookup_insert_ne.
Qed.

Lemma apply_writes_lookup writes parser n s :
  NoDup writes.*1 → (n, s) ∈ writes →
  apply_writes writes parser !! n = Some (proxy_data s).
Proof.
  revert parser. induction writes as [| [m t] rest IH]; intros parser Hnd Hin.
  { by apply elem_of_nil in Hin. }
  rewrite fmap_cons in Hnd. apply NoDup_cons in Hnd as [Hfresh Hnd].
  rewrite apply_writes_cons.
  apply elem_of_cons in Hin as [[= -> ->] | Hin]; [| by apply IH].
  rewrite apply_writes_other by done.
  unfold setitem. by rewrite lookup_insert_eq.
Qed.

Lemma section_writes_names st attrs fields writes :
  Forall2 (section_write st attrs) fields writes →
  writes.*1 = field_name <$> fields.
Proof.
  induction 1 as [| f w fields writes [Hname _] _ IH]; [done |].
  rewrite !fmap_cons. by f_equal.
Qed.

(** [save_body] once the destination is known: the sections, then the
    file. *)
Lemma save_body_reaches_open st self path h r h' :
  save_body st self path h = (r, h') →
  heap_log h = [] →
  ∀ p, EvOpen p ∈ heap_log h' ∨ r = Raise (FileOpenError p)
       ∨ r = Raise (FileWriteError p) →
    ∃ writes tail,
      Forall2 (section_write st (ci_attrs self)) (cc_fields (ci_class self)) writes
      ∧ heap_log h' = (log_of_writes writes ++ EvOpen p :: tail)%list
      ∧ (∀ n s, EvSetSection n s ∉ tail)
      ∧ heap_parser h' = apply_writes writes <$> heap_parser h
      ∧ (cc_fields (ci_class self) ≠ [] → is_Some (heap_parser h)).
Proof.
  intros Hbody Hlog p Hreached.
  assert (∀ writes, EvOpen p ∉ log_of_writes writes) as Hno_open.
  { intros writes (w0 & ? & _)%list_elem_of_fmap. done. }
  unfold save_body, mbind, M_bind, lift, get_section_fields in Hbody.
  (* resolving the destination *)
  destruct (match path with Some p0 => Ok p0 | None => _ end) as [dest | e] eqn:Hdest.
  2:{ simplify_eq. rewrite Hlog in Hreached.
      destruct path; [done |]. destruct (_config_path self); [done |].
      simplify_eq. destruct Hreached as [?%elem_of_nil | [? | ?]]; done. }
  (* the loop over the section fields *)
  destruct (save_sections_spec st (ci_attrs self) (cc_fields (ci_class self)) h)
    as (writes & Hlog1 & Hworld1 & Hres1).
  destruct (save_sections st (ci_attrs self) (cc_fields (ci_class self)) h)
    as [r1 h1].
  cbn [fst snd] in *. rewrite Hlog, app_nil_l in Hlog1.
  destruct r1 as [[] | e].
  2:{ simplify_eq. rewrite Hlog1 in Hreached.
      destruct Hreached as [Hin | [[= ->] | [= ->]]].
      - by destruct (Hno_open writes).
      - by destruct (Hres1 p) as [Hne _].
      - by destruct (Hres1 p) as [_ Hne]. }
  destruct Hres1 as (Hwrites & Hparser1 & Hsome).
  (* the file *)
  unfold open_w, parser_write, tell in Hbody. cbn [heap_world heap_log heap_parser] in Hbody.
  assert (p = dest) as ->.
  { repeat case_decide; repeat case_match; simplify_eq; cbn in Hreached;
      rewrite ?Hlog1 in Hreached;
      destruct Hreached as [Hin | [? | ?]]; simplify_eq; try done;
      repeat (apply elem_of_app in Hin as [Hin | Hin]);
      try (by destruct (Hno_open writes));
      by repeat (apply elem_of_cons in Hin as [? | Hin]; simplify_eq;
                 try by apply elem_of_nil in Hin). }
  exists writes.
  destruct (decide (dest ∈ unopenable (heap_world h1))) as [Hdenied | Hopened].
  { exists []. simplify_eq. cbn [heap_log heap_parser heap_world]. rewrite Hlog1.
    split; [done |]. split; [done |]. split; [| done].
    intros m s. apply not_elem_of_nil. }
  exists [EvWrite dest].
  assert (∀ n s, EvSetSection n s ∉ [EvWrite dest]) as Htail.
  { intros n s [? | ?%elem_of_nil]%elem_of_cons; done. }
  assert (heap_log h' = (log_of_writes writes ++ [EvOpen dest; EvWrite dest])%list
          ∧ heap_parser h' = heap_parser h1) as [-> ->].
  { unfold set_file in Hbody.
    cbn [heap_world heap_log heap_parser unwritable] in Hbody.
    repeat case_match; simplify_eq; cbn [heap_log heap_parser];
      by rewrite Hlog1, <- app_assoc. }
  done.
Qed.



End LoadSave.

(** * Further properties of the module *)

(** ** [is_optional_type] *)

(** X1: an annotation is optional exactly when it is a [Union] that lists
    [NoneType]; [NoneType] on its own, a plain type and a [Union] without
    [NoneType] are not. *)
Theorem is_optional_type_iff {C} (tp : pytype C) :
  is_optional_type tp = true ↔ ∃ args, tp = TUnion args ∧ TNoneType ∈ args.
Proof.
  split.
  - destruct tp as [| | | | args |]; try done. simpl.
    intros (t & Ht & Hnone)%existsb_exists. exists args. split; [done |].
    apply list_elem_of_In in Ht. by destruct t.
  - intros (args & -> & Hin). simpl. apply existsb_exists.
    exists TNoneType. split; [by apply list_elem_of_In | done].
Qed.

Lemma is_optional_type_iff_witness :
  is_optional_type (Optional (TInt : pytype Empty_set)) = true
  ∧ is_optional_type (TNoneType : pytype Empty_set) = false.
Proof.
  split.
  - apply is_optional_type_iff. exists [TInt; TNoneType]. split; [reflexivity |].
    rewrite !elem_of_cons. auto.
  - destruct (is_optional_type (TNoneType : pytype Empty_set)) eqn:Hopt;
      [| reflexivity].
    apply is_optional_type_iff in Hopt as (args & Habsurd & _). discriminate.
Defined.

(** ** Sections: construction and conversion *)
Section Sections.

Implicit Types (st : ClassAttrs) (cls : SectionClass) (self : SectionInstance).
Implicit Types (fields : list (Field Empty_set pyval)).
Implicit Types (attrs kwargs source converted acc : gmap string pyval).

Lemma result_bind_Raise {A B} (r : result A) (k : A → result B) (e : exn) :
  r = Raise e → r ≫= k = Raise e.
Proof. by intros ->. Qed.

Lemma convert_loop_dom fields source acc converted :
  convert_loop fields source acc = Ok converted →
  dom converted = dom acc ∪ (list_to_set (field_name <$> fields) ∩ dom source).
Proof.
  revert acc. induction fields as [| f rest IH]; intros acc Hloop.
  { simpl in Hloop. simplify_eq. set_solver. }
  simpl in Hloop. destruct (source !! field_name f) as [raw |] eqn:Hsrc.
  - destruct (convert_value (field_type f) raw) as [v |]; [| done].
    simpl in Hloop. rewrite (IH _ Hloop), dom_insert_L, fmap_cons.
    apply elem_of_dom_2 in Hsrc. set_solver.
  - rewrite (IH _ Hloop), fmap_cons.
    apply not_elem_of_dom in Hsrc. set_solver.
Qed.

Lemma convert_loop_converts fields source acc converted :
  convert_loop fields source acc = Ok converted →
  ∀ f raw, f ∈ fields → source !! field_name f = Some raw →
           ∃ v, convert_value (field_type f) raw = Ok v.
Proof.
  revert acc. induction fields as [| g rest IH]; intros acc Hloop f raw Hf Hraw.
  { by apply elem_of_nil in Hf. }
  simpl in Hloop. apply elem_of_cons in Hf as [-> | Hf].
  - rewrite Hraw in Hloop.
    destruct (convert_value (field_type g) raw) as [v |]; [eauto | done].
  - destruct (source !! field_name g) as [raw0 |]; [| by eapply IH].
    destruct (convert_value (field_type g) raw0) as [v0 |]; [| done].
    by eapply IH.
Qed.

Lemma convert_ok_inv cls source converted :
  convert_field_types_from_strings cls source = Ok converted →
  dom source ⊆ cls_field_nameset cls
  ∧ convert_loop (sc_fields cls) source ∅ = Ok converted.
Proof.
  unfold convert_field_types_from_strings.
  destruct (decide _) as [Hempty |]; [| done]. intros Hloop. split; [| done].
  intros k Hk. destruct (decide (k ∈ cls_field_nameset cls)) as [| Hout]; [done |].
  assert (k ∈ dom source ∖ cls_field_nameset cls) as Hin
    by (by apply elem_of_difference).
  rewrite Hempty in Hin. by apply not_elem_of_empty in Hin.
Qed.

(** X2: a successful conversion has exactly the keys of the source: every
    key is converted, and a field the source does not mention is not given
    a value. *)
Theorem converted_keys_are_source_keys cls source converted :
  convert_field_types_from_strings cls source = Ok converted →
  dom converted = dom source.
Proof.
  intros [Hknown Hloop]%convert_ok_inv.
  rewrite (convert_loop_dom _ _ _ _ Hloop). unfold cls_field_nameset in Hknown.
  set_solver.
Qed.

Lemma converted_keys_are_source_keys_witness :
  dom ({[ "port" := VInt 8080 ]} : gmap string pyval)
  = dom ({[ "port" := VStr "8080" ]} : gmap string pyval).
Proof.
  apply (converted_keys_are_source_keys Example.Server).
  vm_compute. reflexivity.
Defined.

Lemma convert_union_raises cls source (f : Field Empty_set pyval)
    (args : list (pytype Empty_set)) :
  f ∈ sc_fields cls →
  field_type f = TUnion args →
  is_Some (source !! field_name f) →
  ∃ e, convert_field_types_from_strings cls source = Raise e
       ∧ (e = UnknownFieldName (dom source ∖ cls_field_nameset cls)
          ∨ ∃ what, e = ConstructorError what).
Proof.
  intros Hf Htype [raw Hraw].
  destruct (convert_field_types_from_strings cls source) as [converted | e]
    eqn:Hconv.
  - apply convert_ok_inv in Hconv as [_ Hloop].
    destruct (convert_loop_converts _ _ _ _ Hloop f raw Hf Hraw) as (v & Hv).
    rewrite Htype in Hv. done.
  - exists e. split; [done |]. unfold convert_field_types_from_strings in Hconv.
    destruct (decide _); [| left; congruence].
    right. by eapply convert_loop_raises.
Qed.

(** X3: a source that gives a value to a field annotated with a [Union],
    such as [Optional[bool]], is never converted: the call of the
    annotation raises, unless an unknown key is reported first. *)
Theorem union_field_never_converts cls source (f : Field Empty_set pyval)
    (args : list (pytype Empty_set)) :
  f ∈ sc_fields cls →
  field_type f = TUnion args →
  is_Some (source !! field_name f) →
  ∃ e, convert_field_types_from_strings cls source = Raise e
       ∧ (e = UnknownFieldName (dom source ∖ cls_field_nameset cls)
          ∨ ∃ what, e = ConstructorError what).
Proof. apply convert_union_raises. Qed.

Lemma union_field_never_converts_witness :
  ∃ e, convert_field_types_from_strings Example.Server
         {[ "debug" := VStr "true" ]} = Raise e.
Proof.
  destruct (union_field_never_converts Example.Server
              {[ "debug" := VStr "true" ]}
              (mkField "debug" (Optional TBool) (Some VNone))
              [TBool; TNoneType]) as (e & He & _).
  - simpl. rewrite !elem_of_cons. auto.
  - reflexivity.
  - exists (VStr "true"). reflexivity.
  - by exists e.
Defined.

Lemma asdict_inv attrs fields data :
  asdict attrs fields = Ok data →
  data.*1 = field_name <$> fields
  ∧ ∀ n v, (n, v) ∈ data → attrs !! n = Some v.
Proof.
  revert data. induction fields as [| f rest IH]; intros data Hdict.
  { simpl in Hdict. simplify_eq. split; [done |]. by intros n v ?%elem_of_nil. }
  simpl in Hdict. destruct (attrs !! field_name f) as [v |] eqn:Hv; [| done].
  destruct (asdict attrs rest) as [data' |]; [| done].
  simpl in Hdict. simplify_eq. destruct (IH _ eq_refl) as [Hnames Hvals].
  split; [by rewrite !fmap_cons, Hnames |].
  intros n w [[= -> ->] | Hin]%elem_of_cons; [done | by apply Hvals].
Qed.

Lemma to_config_section_lookup st self section n :
  to_config_section st self = Ok section →
  proxy_data section !! n
  = if decide (n ∈ field_name <$> sc_fields (si_class self))
    then str <$> si_attrs self !! n else None.
Proof.
  unfold to_config_section.
  destruct (asdict _ _) as [data |] eqn:Hdict; [| done].
  simpl. intros [= <-]. apply asdict_inv in Hdict as [Hnames Hvals].
  rewrite (write_items_lookup (si_attrs self)) by done.
  rewrite Hnames. by destruct (decide _).
Qed.

Lemma to_config_section_values st self section :
  to_config_section st self = Ok section →
  ∀ f, f ∈ sc_fields (si_class self) →
       ∃ v, si_attrs self !! field_name f = Some v
            ∧ proxy_data section !! field_name f = Some (str v).
Proof.
  intros Hto f Hf. rewrite (to_config_section_lookup _ _ _ _ Hto).
  rewrite decide_True by (apply list_elem_of_fmap; eauto).
  unfold to_config_section in Hto.
  destruct (asdict _ _) as [data |] eqn:Hdict; [| done].
  apply asdict_inv in Hdict as [Hnames Hdata].
  assert (field_name f ∈ data.*1) as ([n v] & Hn & Hin)%list_elem_of_fmap.
  { rewrite Hnames. apply list_elem_of_fmap. eauto. }
  simpl in Hn. subst n. rewrite (Hdata _ _ Hin). eauto.
Qed.

(** X4: the raw section of an instance carries the class's section name
    and, for every declared field, none skipped, [str] of the field's
    value under the field's name; a field that is [None] is written as the
    string ["None"]. *)
Theorem to_config_section_writes_every_field st self section :
  to_config_section st self = Ok section →
  proxy_name section = section_name st (si_class self)
  ∧ (∀ f, f ∈ sc_fields (si_class self) →
          ∃ v, si_attrs self !! field_name f = Some v
               ∧ proxy_data section !! field_name f = Some (str v))
  ∧ (∀ f, f ∈ sc_fields (si_class self) →
          si_attrs self !! field_name f = Some VNone →
          proxy_data section !! field_name f = Some "None").
Proof.
  intros Hto. pose proof (to_config_section_values _ _ _ Hto) as Hvals.
  split; [| split; [done |]].
  - unfold to_config_section in Hto.
    destruct (asdict _ _); [| done]. simpl in Hto. simplify_eq.
    apply write_items_name.
  - intros f Hf Hnone. destruct (Hvals f Hf) as (v & Hv & ->). by simplify_eq.
Qed.

Lemma to_config_section_writes_every_field_witness :
  ∃ section,
    to_config_section Example.prepared Example.localhost = Ok section
    ∧ proxy_name section = Named "server"
    ∧ proxy_data section !! "debug" = Some "None".
Proof.
  assert (∃ section, to_config_section Example.prepared Example.localhost
                     = Ok section) as [section Hto].
  { eexists. vm_compute. reflexivity. }
  destruct (to_config_section_writes_every_field _ _ _ Hto)
    as (Hname & _ & Hnone).
  exists section. split; [exact Hto |]. split; [exact Hname |].
  apply (Hnone (mkField "debug" (Optional TBool) (Some VNone))).
  - simpl. rewrite !elem_of_cons. auto.
  - reflexivity.
Defined.

(** X5: for a class with a field annotated with a [Union], writing an
    instance to a raw section and reading it back always fails: the field
    is written, as every field is, and cannot be converted. *)
Theorem round_trip_fails_with_union_field st self section
    (f : Field Empty_set pyval) (args : list (pytype Empty_set)) :
  to_config_section st self = Ok section →
  f ∈ sc_fields (si_class self) →
  field_type f = TUnion args →
  ∃ e, from_config_section st (si_class self) section = Raise e.
Proof.
  intros Hto Hf Htype. unfold from_config_section.
  destruct (decide _) as [Hname | Hname]; [| eauto].
  destruct (convert_union_raises (si_class self)
              (VStr <$> proxy_data section) f args Hf Htype) as (e & -> & _).
  - rewrite lookup_fmap.
    destruct (to_config_section_values _ _ _ Hto f Hf) as (v & _ & ->). eauto.
  - eauto.
Qed.

Lemma round_trip_fails_with_union_field_witness :
  ∃ section e,
    to_config_section Example.prepared Example.localhost = Ok section
    ∧ from_config_section Example.prepared Example.Server section = Raise e.
Proof.
  assert (∃ section, to_config_section Example.prepared Example.localhost
                     = Ok section) as [section Hto].
  { eexists. vm_compute. reflexivity. }
  destruct (round_trip_fails_with_union_field Example.prepared Example.localhost
              section (mkField "debug" (Optional TBool) (Some VNone))
              [TBool; TNoneType] Hto) as [e He].
  - simpl. rewrite !elem_of_cons. auto.
  - reflexivity.
  - by exists section, e.
Defined.

Lemma init_attrs_dom {C V} cls_name (fs : list (Field C V))
    (kw acc0 attrs0 : gmap string V) :
  init_attrs cls_name fs kw acc0 = Ok attrs0 →
  dom attrs0 = dom acc0 ∪ list_to_set (field_name <$> fs).
Proof.
  revert acc0. induction fs as [| f rest IH]; intros acc0 Hinit.
  { simpl in Hinit. simplify_eq. set_solver. }
  simpl in Hinit. rewrite fmap_cons.
  destruct (kw !! field_name f) as [v |]; [| destruct (field_default f) as [v |]];
    [| | done]; rewrite (IH _ Hinit), dom_insert_L; set_solver.
Qed.

Lemma init_attrs_lookup {C V} cls_name (fs : list (Field C V))
    (kw acc0 attrs0 : gmap string V) :
  NoDup (field_name <$> fs) →
  init_attrs cls_name fs kw acc0 = Ok attrs0 →
  (∀ f, f ∈ fs →
        attrs0 !! field_name f
        = match kw !! field_name f with
          | Some v => Some v
          | None => field_default f
          end)
  ∧ (∀ n, n ∉ field_name <$> fs → attrs0 !! n = acc0 !! n).
Proof.
  revert acc0. induction fs as [| f rest IH]; intros acc0 Hnd Hinit.
  { simpl in Hinit. simplify_eq. split; [by intros ? ?%elem_of_nil | done]. }
  rewrite fmap_cons in Hnd. apply NoDup_cons in Hnd as [Hfresh Hnd].
  simpl in Hinit.
  assert (∃ v, match kw !! field_name f with
               | Some v => Some v
               | None => field_default f
               end = Some v
               ∧ init_attrs cls_name rest kw (<[field_name f := v]> acc0)
                 = Ok attrs0) as (v & Hv & Hrest).
  { destruct (kw !! field_name f) as [v |]; [eauto |].
    destruct (field_default f) as [v |]; [eauto | done]. }
  destruct (IH _ Hnd Hrest) as [Hin Hout]. split.
  - intros g [-> | Hg]%elem_of_cons; [| by apply Hin].
    by rewrite (Hout _ Hfresh), lookup_insert_eq, Hv.
  - intros n [Hne Hn]%not_elem_of_cons.
    by rewrite (Hout _ Hn), lookup_insert_ne.
Qed.

Lemma new_section_ok_inv st cls kwargs self :
  new_section st cls kwargs = Ok self →
  section_name st cls ≠ AUTO_NAME
  ∧ dom kwargs ⊆ cls_field_nameset cls
  ∧ init_attrs (sc_name cls) (sc_fields cls) kwargs ∅ = Ok (si_attrs self)
  ∧ si_class self = cls
  ∧ CheckNone_post_init is_None (sc_name cls) (si_attrs self) (sc_fields cls)
    = Ok ().
Proof.
  unfold new_section. intros (attrs & Hinit & Hpost)%result_bind_Ok.
  apply result_bind_Ok in Hpost as ([] & Hpost & [= <-]).
  unfold dataclass_init in Hinit. destruct (decide _) as [Hdom |]; [| done].
  unfold ConfigSectionBase_post_init in Hpost.
  destruct (section_name st cls); [done |]. done.
Qed.

(** X6: while a section class carries the sentinel it has no instance:
    calling it fails, whatever the arguments, and so does reading any raw
    section with it. *)
Theorem auto_named_class_has_no_instance st cls :
  section_name st cls = AUTO_NAME →
  (∀ kwargs, ∃ e, new_section st cls kwargs = Raise e)
  ∧ (∀ section, ∃ e, from_config_section st cls section = Raise e).
Proof.
  intros Hauto.
  assert (∀ kwargs, ∃ e, new_section st cls kwargs = Raise e) as Hnew.
  { intros kwargs. destruct (new_section st cls kwargs) as [self |] eqn:Hnew;
      [| eauto].
    by apply new_section_ok_inv in Hnew as [? _]. }
  split; [done |]. intros section. unfold from_config_section.
  destruct (decide _) as [Hname | Hname]; [| eauto].
  destruct (convert_field_types_from_strings _ _) as [converted | e]; [| eauto].
  apply Hnew.
Qed.

Lemma auto_named_class_has_no_instance_witness :
  ∃ e, new_section Example.declared Example.Server
         {[ "host" := VStr "h"; "port" := VInt 1 ]} = Raise e.
Proof.
  destruct (auto_named_class_has_no_instance Example.declared Example.Server)
    as [Hnew _]; [reflexivity |].
  apply Hnew.
Defined.

(** X7: what a successful [from_config_section] guarantees: the raw
    section carried the class's resolved name and only declared keys; the
    instance has exactly the declared fields; a field present in the raw
    section holds the conversion of its string, a field absent from it
    holds its declared default; and no required field is [None]. *)
Theorem from_config_section_ok st cls (section : SectionProxy) self :
  NoDup (field_name <$> sc_fields cls) →
  from_config_section st cls section = Ok self →
  proxy_name section = section_name st cls
  ∧ section_name st cls ≠ AUTO_NAME
  ∧ dom (proxy_data section) ⊆ cls_field_nameset cls
  ∧ si_class self = cls
  ∧ dom (si_attrs self) = cls_field_nameset cls
  ∧ (∀ f, f ∈ sc_fields cls →
          match proxy_data section !! field_name f with
          | Some s => ∃ v, convert_value (field_type f) (VStr s) = Ok v
                           ∧ si_attrs self !! field_name f = Some v
          | None => ∃ d, field_default f = Some d
                         ∧ si_attrs self !! field_name f = Some d
          end)
  ∧ (∀ f, f ∈ sc_fields cls → ¬ absent_required is_None (si_attrs self) f).
Proof.
  intros Hnd. unfold from_config_section.
  destruct (decide _) as [Hname |]; [| done].
  intros (converted & Hconv & Hnew)%result_bind_Ok.
  apply new_section_ok_inv in Hnew as (Hres & _ & Hinit & Hcls & Hcheck).
  pose proof (convert_ok_inv _ _ _ Hconv) as [Hknown Hloop].
  rewrite dom_fmap_L in Hknown.
  split; [done |]. split; [done |]. split; [done |]. split; [done |].
  split; [| split].
  - rewrite (init_attrs_dom _ _ _ _ _ Hinit). unfold cls_field_nameset. set_solver.
  - intros f Hf.
    destruct (init_attrs_lookup _ _ _ _ _ Hnd Hinit) as [Hattr _].
    specialize (Hattr f Hf).
    destruct (proxy_data section !! field_name f) as [s |] eqn:Hs.
    + destruct (convert_loop_lookup _ _ _ _ Hnd Hloop) as [Hin _].
      destruct (Hin f (VStr s) Hf) as (v & Hv & Hconverted).
      { by rewrite lookup_fmap, Hs. }
      rewrite Hconverted in Hattr. eauto.
    + assert (converted !! field_name f = None) as Hconverted.
      { apply not_elem_of_dom.
        rewrite (convert_loop_dom _ _ _ _ Hloop), dom_fmap_L.
        apply not_elem_of_dom in Hs. set_solver. }
      rewrite Hconverted in Hattr.
      destruct (field_default f) as [d |]; [eauto |].
      (* a field with neither argument nor default stops [__init__] *)
      exfalso. apply not_elem_of_dom in Hattr.
      rewrite (init_attrs_dom _ _ _ _ _ Hinit) in Hattr.
      apply Hattr, elem_of_union_r, elem_of_list_to_set, list_elem_of_fmap. eauto.
  - pose proof (CheckNone_post_init_spec is_None (sc_name cls) (si_attrs self)
                  (sc_fields cls)) as Hspec.
    by rewrite Hcheck in Hspec.
Qed.

Lemma from_config_section_ok_witness :
  ∃ self,
    from_config_section Example.prepared Example.Server
      (mkProxy (Named "server") {[ "port" := "8080"; "host" := "h" ]}) = Ok self
    ∧ dom (si_attrs self) = cls_field_nameset Example.Server.
Proof.
  assert (∃ self, from_config_section Example.prepared Example.Server
            (mkProxy (Named "server") {[ "port" := "8080"; "host" := "h" ]})
          = Ok self) as [self Hfrom].
  { eexists. vm_compute. reflexivity. }
  destruct (from_config_section_ok Example.prepared Example.Server
              (mkProxy (Named "server") {[ "port" := "8080"; "host" := "h" ]})
              self)
    as (_ & _ & _ & _ & Hdom & _).
  - simpl. repeat (apply NoDup_cons; split;
      [rewrite ?elem_of_cons, ?elem_of_nil; intuition discriminate |]).
    apply NoDup_nil_2.
  - exact Hfrom.
  - by exists self.
Defined.

End Sections.

(** ** Schema preparation, continued *)
Section PreparationMore.

Implicit Types (st : ClassAttrs) (cls : ConfigClass) (c : SectionClass).
Implicit Types (f g : Field pyclass (option SectionInstance)).
Implicit Types (fields : list (Field pyclass (option SectionInstance))).

Lemma issubclass_class (tp : pytype pyclass) :
  (∀ args, tp ≠ TUnion args) →
  issubclass_ConfigSectionBase tp = Ok (is_section_annotation tp).
Proof. destruct tp as [| | | | args | []]; try done. by intros H; destruct (H args). Qed.

Lemma wrong_type_fields_classes fields :
  (∀ f args, f ∈ fields → field_type f ≠ TUnion args) →
  wrong_type_fields fields
  = Ok (list_to_set
          (field_name <$> filter (λ f, is_section_annotation (field_type f) = false)
                            fields)).
Proof.
  induction fields as [| g rest IH]; intros Hclasses; [done |].
  cbn [wrong_type_fields].
  rewrite issubclass_class by (intros args; apply Hclasses, list_elem_of_here).
  rewrite IH by (intros f args Hf; by apply Hclasses, list_elem_of_further).
  rewrite filter_cons.
  destruct (is_section_annotation (field_type g)) eqn:Hsection.
  - by rewrite decide_False.
  - rewrite decide_True by done. by rewrite fmap_cons, list_to_set_cons.
Qed.

Lemma wrong_type_fields_union fields :
  (∃ f args, f ∈ fields ∧ field_type f = TUnion args) →
  wrong_type_fields fields = Raise NotAClass.
Proof.
  induction fields as [| g rest IH]; intros (f & args & Hf & Htype).
  { by apply elem_of_nil in Hf. }
  cbn [wrong_type_fields]. apply elem_of_cons in Hf as [-> | Hf].
  - by rewrite Htype.
  - rewrite IH by eauto.
    by destruct (issubclass_ConfigSectionBase (field_type g)) as [b | []] eqn:Hg;
      [| destruct (field_type g) as [| | | | | []] ..].
Qed.

(** X8: preparation checks the annotations before the names.  An
    annotation that is not a class, such as [Optional[Server]], makes
    [issubclass] itself raise; otherwise, when some field is not annotated
    with a section class, the failure is [SchemaFieldTypeError] and lists
    exactly those fields, whatever the section names are. *)
Theorem schema_field_type_errors st cls :
  ((∃ f args, f ∈ cc_fields cls ∧ field_type f = TUnion args) →
     config_dataclass st cls = Raise NotAClass)
  ∧ ((∀ f args, f ∈ cc_fields cls → field_type f ≠ TUnion args) →
     (∃ f, f ∈ cc_fields cls ∧ is_section_annotation (field_type f) = false) →
     ∃ wrong,
       config_dataclass st cls = Raise (SchemaFieldTypeError wrong)
       ∧ ∀ n, n ∈ wrong
              ↔ ∃ f, f ∈ cc_fields cls ∧ field_name f = n
                     ∧ is_section_annotation (field_type f) = false).
Proof.
  unfold config_dataclass, get_section_fields. split.
  - intros Hunion. by rewrite wrong_type_fields_union.
  - intros Hclasses (f & Hf & Hwrong).
    rewrite wrong_type_fields_classes by done. simpl.
    set (wrong := list_to_set _).
    assert (∀ n, n ∈ wrong
                 ↔ ∃ g, g ∈ cc_fields cls ∧ field_name g = n
                        ∧ is_section_annotation (field_type g) = false) as Hspec.
    { intros n. unfold wrong.
      rewrite elem_of_list_to_set, list_elem_of_fmap.
      setoid_rewrite list_elem_of_filter. naive_solver. }
    exists wrong. split; [| done].
    rewrite decide_False; [done |]. intros Hempty.
    assert (field_name f ∈ wrong) as Hin by (apply Hspec; eauto).
    rewrite Hempty in Hin. by apply not_elem_of_empty in Hin.
Qed.

Lemma schema_field_type_errors_witness :
  config_dataclass Example.declared
    (mkConfigClass "Mixed"
       [mkField "server" (TClass (SectionCls Example.Server)) (Some None);
        mkField "retries" TInt (Some None);
        mkField "other" (TClass (OtherCls "Path")) (Some None)])
  = Raise (SchemaFieldTypeError {[ "retries"; "other" ]})
  ∧ config_dataclass Example.declared
      (mkConfigClass "Maybe"
         [mkField "server" (Optional (TClass (SectionCls Example.Server)))
            (Some None)])
    = Raise NotAClass.
Proof.
  split.
  - destruct (schema_field_type_errors Example.declared
      (mkConfigClass "Mixed"
         [mkField "server" (TClass (SectionCls Example.Server)) (Some None);
          mkField "retries" TInt (Some None);
          mkField "other" (TClass (OtherCls "Path")) (Some None)]))
      as [_ Hbatch].
    destruct Hbatch as (wrong & Hraise & _).
    + intros f args. simpl. rewrite !elem_of_cons, elem_of_nil.
      intros [-> | [-> | [-> | []]]]; done.
    + exists (mkField "retries" TInt (Some None)). split; [| done].
      simpl. rewrite !elem_of_cons. auto.
    + vm_compute. reflexivity.
  - apply (schema_field_type_errors Example.declared
      (mkConfigClass "Maybe"
         [mkField "server" (Optional (TClass (SectionCls Example.Server)))
            (Some None)])).
    eexists _, _. split; [apply list_elem_of_here | reflexivity].
Defined.

Lemma stamp_auto_names_unused fields st c :
  (∀ f, f ∈ fields → uses_class c f = false) →
  stamp_auto_names fields st (sc_name c) = st (sc_name c).
Proof.
  intros Hunused.
  destruct (st (sc_name c)) as [| n] eqn:Hst;
    [| by apply stamp_auto_names_named].
  rewrite stamp_auto_names_auto by done.
  destruct (list_find _ fields) as [[i g] |] eqn:Hfind; [| done].
  apply list_find_Some in Hfind as (Hi & Hg & _).
  rewrite Hunused in Hg by (by eapply list_elem_of_lookup_2). done.
Qed.

Lemma stamp_auto_names_resolved fields st f c :
  f ∈ fields → field_type f = TClass (SectionCls c) →
  section_name (stamp_auto_names fields st) c ≠ AUTO_NAME.
Proof.
  intros Hf Htype. unfold section_name at 1.
  destruct (section_name st c) as [| n] eqn:Hst.
  - rewrite stamp_auto_names_auto by done.
    destruct (list_find _ fields) as [[i g] |] eqn:Hfind; [done |].
    apply list_find_None in Hfind. rewrite Forall_forall in Hfind.
    destruct (Hfind f Hf). unfold uses_class. rewrite Htype.
    by apply bool_decide_eq_true.
  - by rewrite (stamp_auto_names_named _ _ _ _ Hst).
Qed.

(** Stamping changes nothing once every class in use has a name. *)
Lemma stamp_auto_names_id fields st cname :
  (∀ f c, f ∈ fields → field_type f = TClass (SectionCls c) →
          section_name st c ≠ AUTO_NAME) →
  stamp_auto_names fields st cname = st cname.
Proof.
  induction fields as [| g rest IH]; intros Hnamed; [done |].
  assert (stamp_auto_names rest st cname = st cname) as Hrest.
  { apply IH. intros f c Hf. by apply Hnamed, list_elem_of_further. }
  cbn [stamp_auto_names].
  destruct (field_type g) as [| | | | | [c |]] eqn:Hg; try done.
  destruct (section_name st c) eqn:Hc; [| done].
  by destruct (Hnamed g c (list_elem_of_here _ _) Hg).
Qed.



(** X10: preparing a prepared schema again changes no name, and it
    succeeds exactly when every field's section class is named after the
    field; so it fails for a schema that uses one auto-named class for two
    fields. *)
Theorem preparation_again st st' cls :
  config_dataclass st cls = Ok st' →
  (∀ st'', config_dataclass st' cls = Ok st'' → ∀ cname, st'' cname = st' cname)
  ∧ ((∃ st'', config_dataclass st' cls = Ok st'')
     ↔ ∀ f c, f ∈ cc_fields cls → field_type f = TClass (SectionCls c) →
              section_name st' c = Named (field_name f)).
Proof.
  intros (Hsections & _ & ->)%config_dataclass_ok.
  set (st' := stamp_auto_names (cc_fields cls) st).
  assert (∀ f c, f ∈ cc_fields cls → field_type f = TClass (SectionCls c) →
                 section_name st' c ≠ AUTO_NAME) as Hresolved.
  { intros f c Hf Htype. by eapply stamp_auto_names_resolved. }
  split; [| split].
  - intros st'' (_ & _ & ->)%config_dataclass_ok cname.
    by apply stamp_auto_names_id.
  - intros (st'' & (_ & Hmatch & _)%config_dataclass_ok) f c Hf Htype.
    destruct (section_name st' c) as [| n] eqn:Hn.
    + by destruct (Hresolved f c Hf Htype).
    + destruct (decide (n = field_name f)) as [-> | Hne]; [done |].
      destruct (Hmatch f Hf). by exists c, n.
  - intros Hnames. unfold config_dataclass, get_section_fields.
    rewrite wrong_type_fields_sections by done. simpl.
    rewrite decide_True by done. rewrite decide_True; [eauto |].
    apply set_eq. intros n. rewrite mismatched_field_names_spec.
    split; [| by intros ?%not_elem_of_empty].
    intros (f & Hf & _ & c & fixed & Htype & Hfixed & Hne).
    rewrite (Hnames f c Hf Htype) in Hfixed. congruence.
Qed.

Lemma preparation_again_witness :
  (∃ st'', config_dataclass Example.prepared Example.AppConfig = Ok st'')
  ∧ ¬ (∃ st'', config_dataclass
                 (stamp_auto_names (cc_fields Example.TwoEndpoints)
                    Example.declared) Example.TwoEndpoints = Ok st'').
Proof.
  split.
  - apply (preparation_again Example.declared Example.prepared Example.AppConfig).
    + vm_compute. reflexivity.
    + intros f c [-> | []%elem_of_nil]%elem_of_cons [= <-]. reflexivity.
  - intros Hagain.
    destruct (preparation_again Example.declared
                (stamp_auto_names (cc_fields Example.TwoEndpoints)
                   Example.declared)
                Example.TwoEndpoints eq_refl) as [_ [Hnames _]].
    specialize (Hnames Hagain
      (mkField "backup" (TClass (SectionCls Example.Endpoint)) (Some None))
      Example.Endpoint).
    assert (Named "primary" = Named "backup") as Habsurd; [| discriminate].
    apply Hnames; [| reflexivity]. simpl. rewrite !elem_of_cons. auto.
Defined.



End PreparationMore.

(** ** Loading and saving, continued *)
Section LoadSaveMore.

Implicit Types (st : ClassAttrs) (cls : ConfigClass) (self : ConfigInstance).
Implicit Types (fields : list (Field pyclass (option SectionInstance))).
Implicit Types (parser : gmap string (gmap string string)).

Lemma read_paths_missing (w : World) (ps1 ps2 : list string) (p : string) parser :
  (∀ q, q ∈ ps1 → is_Some (files w !! q)) →
  files w !! p = None →
  read_paths w (ps1 ++ p :: ps2) parser = Raise (ConfigFileNotFound p).
Proof.
  revert parser. induction ps1 as [| q rest IH]; intros parser Hexist Hmissing.
  { simpl. by rewrite Hmissing. }
  destruct (Hexist q) as [file Hfile]; [apply list_elem_of_here |].
  simpl. rewrite Hfile. apply IH; [| done].
  intros q' Hq'. by apply Hexist, list_elem_of_further.
Qed.



(** What the loop of [load] leaves for each field. *)
Lemma load_sections_inv st fields parser
    (acc sections : gmap string (option SectionInstance)) :
  NoDup (field_name <$> fields) →
  load_sections st fields parser acc = Ok sections →
  (∀ f, f ∈ fields →
        ∃ c section,
          field_type f = TClass (SectionCls c)
          ∧ sections !! field_name f = Some (Some section)
          ∧ match getitem (field_name f) parser with
            | Some proxy => from_config_section st c proxy
            | None => new_section st c ∅
            end = Ok section)
  ∧ (∀ n, n ∉ field_name <$> fields → sections !! n = acc !! n)
  ∧ dom sections = dom acc ∪ list_to_set (field_name <$> fields).
Proof.
  revert acc. induction fields as [| g rest IH]; intros acc Hnd Hload.
  { simpl in Hload. simplify_eq.
    split; [by intros ? ?%elem_of_nil |]. split; [done | set_solver]. }
  rewrite fmap_cons in Hnd. apply NoDup_cons in Hnd as [Hfresh Hnd].
  cbn [load_sections] in Hload.
  destruct (field_type g) as [| | | | | [c |]] eqn:Hg; try done.
  apply result_bind_Ok in Hload as (section & Hsection & Hrest).
  destruct (IH _ Hnd Hrest) as (Hin & Hout & Hdom).
  split; [| split].
  - intros f [-> | Hf]%elem_of_cons; [| by apply Hin].
    exists c, section. split; [done |]. split; [| done].
    by rewrite (Hout _ Hfresh), lookup_insert_eq.
  - intros n [Hne Hn]%not_elem_of_cons.
    by rewrite (Hout _ Hn), lookup_insert_ne.
  - rewrite Hdom, dom_insert_L, fmap_cons. set_solver.
Qed.

Lemma new_config_ok_inv cls (kwargs : gmap string (option SectionInstance))
    parser_arg path_arg0 self :
  new_config cls kwargs parser_arg path_arg0 = Ok self →
  init_attrs (cc_name cls) (cc_fields cls) kwargs ∅ = Ok (ci_attrs self)
  ∧ ci_class self = cls ∧ _config_parser self = parser_arg.
Proof.
  unfold new_config. intros (attrs & Hinit & Hpost)%result_bind_Ok.
  unfold ConfigBase_post_init in Hpost.
  apply result_bind_Ok in Hpost as (? & _ & [= <-]).
  unfold dataclass_init in Hinit. by destruct (decide _).
Qed.

(** X13: what a successful [load] returns: an instance of the schema that
    retains the parser; for each section field, an instance of the field's
    section class, whose name is resolved, read from the parser's section
    of the field's name when there is one and built from the defaults when
    there is none; sections of the files that no field declares are not an
    error, and stay in the retained parser: after loading one file the
    parser is the file's content. *)
Theorem load_ok st cls (path : path_arg) (w : World) self :
  NoDup (field_name <$> cc_fields cls) →
  load st cls path w = Ok self →
  ci_class self = cls
  ∧ ∃ parser,
      _config_parser self = Some parser
      ∧ (path = PathAbsent → parser = ∅)
      ∧ (∀ p, path = PathSingle p → files w !! p = Some parser)
      ∧ ∀ f, f ∈ cc_fields cls →
          ∃ c section,
            field_type f = TClass (SectionCls c)
            ∧ section_name st c ≠ AUTO_NAME
            ∧ ci_attrs self !! field_name f = Some (Some section)
            ∧ si_class section = c
            ∧ match getitem (field_name f) parser with
              | Some proxy => from_config_section st c proxy
              | None => new_section st c ∅
              end = Ok section.
Proof.
  intros Hnd. unfold load.
  intros ([paths config_path] & Hpaths & Hrest)%result_bind_Ok.
  apply result_bind_Ok in Hrest as (parser & Hread & Hrest).
  apply result_bind_Ok in Hrest as (sections & Hsections & Hnew).
  apply new_config_ok_inv in Hnew as (Hinit & Hcls & Hparser).
  split; [done |]. exists parser. split; [done |]. split; [| split].
  - intros ->. by simplify_eq/=.
  - intros p ->. simplify_eq/=.
    destruct (files w !! p) as [file |]; [| done]. simplify_eq/=.
    unfold read. by rewrite (right_id ∅ (union_with _)).
  - intros f Hf. unfold get_section_fields in Hsections.
    destruct (load_sections_inv _ _ _ _ _ Hnd Hsections) as (Hin & _ & _).
    destruct (Hin f Hf) as (c & section & Htype & Hlook & Hbuilt).
    exists c, section. split; [done |].
    assert (section_name st c ≠ AUTO_NAME ∧ si_class section = c) as [? ?].
    { destruct (getitem (field_name f) parser) as [proxy |].
      - unfold from_config_section in Hbuilt.
        destruct (decide _); [| done].
        apply result_bind_Ok in Hbuilt as (? & _ & Hbuilt).
        by apply new_section_ok_inv in Hbuilt as (? & _ & _ & ? & _).
      - by apply new_section_ok_inv in Hbuilt as (? & _ & _ & ? & _). }
    split; [done |]. split; [| done].
    destruct (init_attrs_lookup _ _ _ _ _ Hnd Hinit) as [Hattr _].
    by rewrite (Hattr f Hf), Hlook.
Qed.

Lemma load_ok_witness :
  ∃ parser, _config_parser Example.loaded = Some parser
            ∧ files Example.disk !! "app.ini" = Some parser.
Proof.
  destruct (load_ok Example.prepared Example.AppConfig (PathSingle "app.ini")
              Example.disk Example.loaded)
    as (_ & parser & Hparser & _ & Hfile & _).
  - apply NoDup_singleton.
  - vm_compute. reflexivity.
  - exists parser. split; [exact Hparser |]. by apply Hfile.
Defined.

(** A [save] that returns went through every step. *)
Lemma save_body_ok st self (path : option string) (h h' : Heap) :
  save_body st self path h = (Ok (), h') →
  heap_log h = [] →
  ∃ dest writes parser,
    (path = Some dest ∨ path = None ∧ _config_path self = Some dest)
    ∧ heap_parser h = Some parser
    ∧ Forall2 (section_write st (ci_attrs self)) (cc_fields (ci_class self)) writes
    ∧ heap_parser h' = Some (apply_writes writes parser)
    ∧ files (heap_world h')
      = <[dest := apply_writes writes parser]> (files (heap_world h))
    ∧ heap_log h' = (log_of_writes writes ++ [EvOpen dest; EvWrite dest])%list.
Proof.
  intros Hbody Hlog.
  unfold save_body, mbind, M_bind, lift, get_section_fields in Hbody.
  destruct (match path with Some p0 => Ok p0 | None => _ end) as [dest |] eqn:Hdest;
    [| done].
  assert (path = Some dest ∨ path = None ∧ _config_path self = Some dest) as Hpath.
  { destruct path; [left; congruence | right].
    destruct (_config_path self); [| done]. split; congruence. }
  destruct (save_sections_spec st (ci_attrs self) (cc_fields (ci_class self)) h)
    as (writes & Hlog1 & Hworld1 & Hres1).
  destruct (save_sections st (ci_attrs self) (cc_fields (ci_class self)) h)
    as [[[] |] h1]; [| done].
  cbn [fst snd] in *. rewrite Hlog, app_nil_l in Hlog1.
  destruct Hres1 as (Hwrites & Hparser1 & _).
  unfold open_w, parser_write, tell, set_file in Hbody.
  cbn [heap_world heap_log heap_parser unwritable files unopenable] in Hbody.
  repeat case_match; simplify_eq;
    cbn [heap_parser heap_world heap_log files unopenable unwritable] in *;
    (destruct (heap_parser h) as [parser |] eqn:Hp;
      [| by rewrite Hparser1 in * ]);
    exists dest, writes, parser;
    rewrite Hworld1, insert_insert_eq, Hlog1, <- app_assoc;
    rewrite Hparser1 in *; by simplify_eq/=.
Qed.

(** A [save] that fails before the write has not touched the files. *)
Lemma save_body_failure st self (path : option string) (h h' : Heap) (e : exn) :
  save_body st self path h = (Raise e, h') →
  is_Some (heap_parser h) →
  (∀ p, e ≠ FileWriteError p) →
  heap_world h' = heap_world h.
Proof.
  intros Hbody [parser Hparser] Hnot_write.
  unfold save_body, mbind, M_bind, lift, get_section_fields in Hbody.
  destruct (match path with Some p0 => Ok p0 | None => _ end) as [dest |];
    [| by simplify_eq].
  destruct (save_sections_spec st (ci_attrs self) (cc_fields (ci_class self)) h)
    as (writes & _ & Hworld1 & Hres1).
  destruct (save_sections st (ci_attrs self) (cc_fields (ci_class self)) h)
    as [[[] |] h1]; [| by simplify_eq].
  cbn [fst snd] in *. destruct Hres1 as (_ & Hparser1 & _).
  rewrite Hparser in Hparser1.
  unfold open_w, parser_write, tell, set_file in Hbody.
  cbn [heap_world heap_log heap_parser unwritable files unopenable] in Hbody.
  rewrite Hparser1 in Hbody. cbn [fmap option_fmap option_map] in Hbody.
  repeat case_match; simplify_eq; try done.
  by destruct (Hnot_write dest).
Qed.

Lemma save_ok_inv st self (p : string) (w w' : World) self' (log : list event) :
  save st self (Some p) w = (Ok (), self', w', log) →
  ∃ parser parser',
    _config_parser self = Some parser
    ∧ _config_parser self' = Some parser'
    ∧ files w' !! p = Some parser'
    ∧ (∀ q, q ≠ p → files w' !! q = files w !! q)
    ∧ (∀ n, n ∉ field_name <$> cc_fields (ci_class self) →
            parser' !! n = parser !! n)
    ∧ (NoDup (field_name <$> cc_fields (ci_class self)) →
       ∀ f, f ∈ cc_fields (ci_class self) →
         ∃ section proxy,
           ci_attrs self !! field_name f = Some (Some section)
           ∧ to_config_section st section = Ok proxy
           ∧ parser' !! field_name f = Some (proxy_data proxy)).
Proof.
  unfold save.
  destruct (save_body st self (Some p) (mkHeap (_config_parser self) w []))
    as [r h'] eqn:Hbody.
  intros [= -> <- <- <-].
  destruct (save_body_ok _ _ _ _ _ Hbody eq_refl)
    as (dest & writes & parser & [[= <-] | [? _]] & Hparser & Hwrites & Hparser'
        & Hfiles & _); [| done].
  cbn [heap_parser heap_world _config_parser] in *.
  pose proof (section_writes_names _ _ _ _ Hwrites) as Hnames.
  exists parser, (apply_writes writes parser).
  split; [done |]. split; [done |]. split; [| split; [| split]].
  - by rewrite Hfiles, lookup_insert_eq.
  - intros q Hq. by rewrite Hfiles, lookup_insert_ne.
  - intros n Hn. apply apply_writes_other. by rewrite Hnames.
  - intros Hnd f Hf. apply list_elem_of_lookup in Hf as [i Hi].
    destruct (Forall2_lookup_l _ _ _ _ _ Hwrites Hi)
      as ([n proxy] & Hw & Hname & section & Hattr & Hproxy).
    cbn [fst snd] in *. subst n. exists section, proxy.
    split; [done |]. split; [done |].
    apply apply_writes_lookup; [by rewrite Hnames |].
    by eapply list_elem_of_lookup_2.
Qed.





(** A section built from the defaults alone holds the default of every
    field. *)
Lemma new_section_defaults st (c : SectionClass) (section : SectionInstance)
    (g : Field Empty_set pyval) :
  NoDup (field_name <$> sc_fields c) →
  new_section st c ∅ = Ok section →
  g ∈ sc_fields c →
  si_attrs section !! field_name g = field_default g
  ∧ ¬ absent_required is_None (si_attrs section) g.
Proof.
  intros Hnd (_ & _ & Hinit & _ & Hcheck)%new_section_ok_inv Hg.
  destruct (init_attrs_lookup _ _ _ _ _ Hnd Hinit) as [Hattr _].
  split; [by rewrite (Hattr g Hg), lookup_empty |].
  pose proof (CheckNone_post_init_spec is_None (sc_name c) (si_attrs section)
                (sc_fields c)) as Hspec.
  rewrite Hcheck in Hspec. by apply Hspec.
Qed.

(** X16: [load] without a path builds every section from its defaults, so
    it fails as soon as some section class has a required field whose
    default is [None]: such a section has to come from a file. *)
Theorem load_without_path_needs_optional_fields st cls (w : World)
    (f : Field pyclass (option SectionInstance)) (c : SectionClass)
    (g : Field Empty_set pyval) :
  NoDup (field_name <$> cc_fields cls) →
  f ∈ cc_fields cls →
  field_type f = TClass (SectionCls c) →
  NoDup (field_name <$> sc_fields c) →
  g ∈ sc_fields c →
  is_optional_type (field_type g) = false →
  field_default g = Some VNone →
  ∃ e, load st cls PathAbsent w = Raise e.
Proof.
  intros Hnd Hf Htype Hndc Hg Hrequired Hdefault.
  destruct (load st cls PathAbsent w) as [self | e] eqn:Hload; [| eauto].
  exfalso. unfold load in Hload.
  apply result_bind_Ok in Hload as ([paths config_path] & [= <- <-] & Hrest).
  apply result_bind_Ok in Hrest as (parser & [= <-] & Hrest).
  apply result_bind_Ok in Hrest as (sections & Hsections & _).
  destruct (load_sections_inv _ _ _ _ _ Hnd Hsections) as (Hin & _ & _).
  destruct (Hin f Hf) as (c' & section & Htype' & _ & Hbuilt).
  rewrite Htype in Htype'. simplify_eq.
  unfold getitem in Hbuilt. rewrite lookup_empty in Hbuilt. simpl in Hbuilt.
  destruct (new_section_defaults _ _ _ g Hndc Hbuilt Hg) as [Hattr Hok].
  apply Hok. split; [| done].
  unfold getattr_is_None. by rewrite Hattr, Hdefault.
Qed.

Lemma load_without_path_needs_optional_fields_witness :
  ∃ e, load Example.prepared Example.AppConfig PathAbsent Example.disk = Raise e.
Proof.
  apply (load_without_path_needs_optional_fields Example.prepared
           Example.AppConfig Example.disk
           (mkField "server" (TClass (SectionCls Example.Server)) (Some None))
           Example.Server (mkField "port" TInt (Some VNone))).
  - apply NoDup_singleton.
  - apply list_elem_of_here.
  - reflexivity.
  - simpl. repeat (apply NoDup_cons; split;
      [rewrite ?elem_of_cons, ?elem_of_nil; intuition discriminate |]).
    apply NoDup_nil_2.
  - simpl. rewrite !elem_of_cons. auto.
  - reflexivity.
  - reflexivity.
Defined.

End LoadSaveMore.
